(** * dist: distance matrices in PHYLIP format

    A shallow embedding of the Go package [dist] (src/dist.go) and the
    verification of its specification.

    Modelling conventions.
    - A [float64] is a primitive binary64 float ([PrimFloat.float]); [+], [/]
      and [<] are the IEEE 754 operations.
    - A Go slice is the list of its elements wherever the package reads and
      writes within the length of its slices.  An index expression out of
      range is a run-time panic.
    - [append] writes into the array of the slice it is given when that
      array has room.  [Append], the one operation that calls it, is
      modelled over a store of arrays: a slice of floats is there the header
      that Go keeps for it, so that the rows of the matrix and the slice of
      the caller may share their arrays and have spare capacity.
    - A Go [string] is a sequence of bytes ([String.string]).
    - [log.Fatalf] ends the process: it is the outcome [Fatal].  A run-time
      panic is the outcome [Panic].  Both abort whatever was running. *)

From Stdlib Require Import ZArith Lia Bool Floats Ascii String.
From stdpp Require Import base list strings.

Local Open Scope Z_scope.
Local Open Scope nat_scope.

(** ** Outcomes of a call *)

(** The three calls of [log.Fatalf] in the package, with their arguments. *)
Inductive fatal : Type :=
| LengthMismatch (n m : nat)   (* "matrix length (%d) != data length (%d)" *)
| CantConvert (l : string)     (* "can't convert %q" *)
| CantRead (f : string).       (* "can't read %q" *)

Inductive result (A : Type) : Type :=
| Ok (a : A)
| Fatal (e : fatal)
| Panic.

Arguments Ok {A} a.
Arguments Fatal {A} e.
Arguments Panic {A}.

Definition bind {A B : Type} (m : result A) (k : A -> result B) : result B :=
  match m with
  | Ok a => k a
  | Fatal e => Fatal e
  | Panic => Panic
  end.

#[global] Instance result_bind : MBind result := fun A B k m => bind m k.
#[global] Instance result_ret : MRet result := fun A a => Ok a.

(** ** Slices *)

Section Slices.
Context {A : Type}.

(** [l[i]] as an operand. *)
Definition idx (l : list A) (i : nat) : result A :=
  match l !! i with
  | Some x => Ok x
  | None => Panic
  end.

(** [l[i] = x]. *)
Definition upd (l : list A) (i : nat) (x : A) : result (list A) :=
  if decide (i < length l) then Ok (<[i:=x]> l) else Panic.

(** [l[:n]] for a Go [int] n. *)
Definition sliceTo (l : list A) (n : Z) : result (list A) :=
  if decide (0 <= n <= Z.of_nat (length l))%Z then Ok (take (Z.to_nat n) l) else Panic.
End Slices.

(** [m[i][j]] as an operand, and [m[i][j] = x]. *)
Definition idx2 {A : Type} (m : list (list A)) (i j : nat) : result A :=
  row ← idx m i; idx row j.

Definition upd2 {A : Type} (m : list (list A)) (i j : nat) (x : A) : result (list (list A)) :=
  row ← idx m i;
  row' ← upd row j x;
  upd m i row'.

(** ** Counting loops *)

(** [cnt] iterations of [body], the index starting at [lo]. *)
Fixpoint forRange {St : Type} (lo cnt : nat) (body : nat -> St -> result St) (s : St)
  : result St :=
  match cnt with
  | O => Ok s
  | S c => s' ← body lo s; forRange (S lo) c body s'
  end.

(** [for i := lo; i < hi; i++ { body }]. *)
Definition forLoop {St : Type} (lo hi : nat) (body : nat -> St -> result St) (s : St)
  : result St :=
  forRange lo (hi - lo) body s.

(** ** The distance matrix *)

Record DistMat : Type := mkDistMat {
  Matrix : list (list float);
  Names : list string
}.

(** What [NewDistMat] allocates: n rows of n zeros and n empty names. *)
Definition zeros (n : nat) : DistMat :=
  {| Matrix := replicate n (replicate n 0%float);
     Names := replicate n EmptyString |}.

(** [NewDistMat(n)]; [make] panics on a negative length. *)
Definition NewDistMat (n : Z) : result DistMat :=
  if decide (n < 0)%Z then Panic else Ok (zeros (Z.to_nat n)).

(** [len(names) == len(matrix) == len(matrix[i])]: the matrix is n by n. *)
Definition square (n : nat) (d : DistMat) : Prop :=
  length (Names d) = n /\ length (Matrix d) = n /\
  Forall (fun row => length row = n) (Matrix d).

(** ** Arrays and slices of floats *)

(** The header of a slice of floats: the array it points into, the index of
    its first element in that array, its length and its capacity. *)
Record slice : Type := mkSlice {
  array : nat;
  offset : nat;
  len : nat;
  cap : nat
}.

(** The arrays of floats allocated, by address. *)
Abbreviation store := (list (list float)).

(** The array that [s] points into; a slice of capacity 0 needs none. *)
Definition arrayOf (st : store) (s : slice) : list float := default [] (st !! array s).

(** The elements of [s]. *)
Definition elems (st : store) (s : slice) : list float :=
  take (len s) (drop (offset s) (arrayOf st s)).

(** [s[i]] as an operand. *)
Definition read (st : store) (s : slice) (i : nat) : result float :=
  if decide (i < len s) then idx (arrayOf st s) (offset s + i) else Panic.

(** A [DistMat] in memory: the arrays allocated, the headers of the rows
    of [d.Matrix] and [d.Names].  The arrays of [d.Matrix] and of [d.Names]
    themselves are reached through [d] only; they are the lists [matrix]
    and [names]. *)
Record Memory : Type := mkMemory {
  arrays : store;
  matrix : list slice;
  names : list string
}.

(** The matrix and the names that [h] holds. *)
Definition DistMatOf (h : Memory) : DistMat :=
  {| Matrix := map (elems (arrays h)) (matrix h); Names := names h |}.

Section Append.
(** The room that [append] leaves behind the elements when it allocates an
    array for [k] of them: the choice of Go's run-time system. *)
Variable room : nat -> nat.

(** [append(s, x)]: the store and the slice returned.  With room in the
    array of [s], [x] is written there, behind the elements of [s];
    otherwise the elements are copied to a new array. *)
Definition append (st : store) (s : slice) (x : float) : store * slice :=
  if decide (len s < cap s) then
    (<[array s := <[offset s + len s := x]> (arrayOf st s)]> st,
     {| array := array s; offset := offset s; len := S (len s); cap := cap s |})
  else
    (st ++ [elems st s ++ x :: replicate (room (S (len s))) 0%float],
     {| array := length st; offset := 0; len := S (len s);
        cap := S (len s) + room (S (len s)) |}).

(** [Append]. *)
Definition Append (name : string) (data : slice) (h : Memory) : result Memory :=
  let n := length (matrix h) in
  if negb (n =? len data) then Fatal (LengthMismatch n (len data))
  else
    let names := names h ++ [name] in
    let '(st, data) := append (arrays h) data 0%float in
    let mat := matrix h ++ [data] in
    '(st, mat) ← forLoop 0 n (fun i '(st, mat) =>
        row ← idx mat i;
        x ← read st data i;
        let '(st, row) := append st row x in
        mat ← upd mat i row;
        Ok (st, mat)) (st, mat);
    Ok {| arrays := st; matrix := mat; names := names |}.
End Append.

(** The idiom [j := 0; for i, x := range l { if keep(i) { l[j] = x; j++ } }]
    shared by [Delete] and [DeletePair]: the kept elements are moved to the
    front of [l], in place; the loop returns the slice and [j]. *)
Definition compact {A : Type} (keep : nat -> bool) (l : list A) : result (list A * nat) :=
  forLoop 0 (length l) (fun i '(l, j) =>
    x ← idx l i;
    if keep i then l ← upd l j x; Ok (l, S j)
    else Ok (l, j)) (l, 0).

(** [i != taxon] for a loop index [i] and a Go [int] [taxon]. *)
Definition isNot (taxon : Z) (i : nat) : bool := negb (Z.of_nat i =? taxon)%Z.

(** [MakeSymmetrical]. *)
Definition MakeSymmetrical (d : DistMat) : result DistMat :=
  let n := length (Matrix d) in
  mat ← forLoop 0 (n - 1) (fun i mat =>
          forLoop (i + 1) n (fun j mat =>
            m1 ← idx2 mat i j;
            m2 ← idx2 mat j i;
            let a := ((m1 + m2) / 2)%float in
            mat ← upd2 mat i j a;
            upd2 mat j i a) mat) (Matrix d);
  Ok {| Matrix := mat; Names := Names d |}.

(** [Delete]. *)
Definition Delete (taxon : Z) (d : DistMat) : result DistMat :=
  '(names, j) ← compact (isNot taxon) (Names d);
  names ← sliceTo names (Z.of_nat j);
  let n := length (Matrix d) in
  '(mat, ii) ← forLoop 0 n (fun i '(mat, ii) =>
      if isNot taxon i then
        '(mat, jj) ← forLoop 0 n (fun j '(mat, jj) =>
            if isNot taxon j then
              x ← idx2 mat i j;
              mat ← upd2 mat ii jj x;
              Ok (mat, S jj)
            else Ok (mat, jj)) (mat, 0);
        Ok (mat, S ii)
      else Ok (mat, ii)) (Matrix d, 0);
  let n := (Z.of_nat n - 1)%Z in
  mat ← forLoop 0 (Z.to_nat n) (fun i mat =>
      row ← idx mat i;
      row ← sliceTo row n;
      upd mat i row) mat;
  mat ← sliceTo mat n;
  Ok {| Matrix := mat; Names := names |}.

(** [DeletePair]. *)
Definition DeletePair (t1 t2 : Z) (d : DistMat) : result DistMat :=
  let keep i := isNot t1 i && isNot t2 i in
  '(names, j) ← compact keep (Names d);
  names ← sliceTo names (Z.of_nat j);
  '(mat, r) ← compact keep (Matrix d);
  mat ← sliceTo mat (Z.of_nat r);
  mat ← forLoop 0 (length mat) (fun i mat =>
      row ← idx mat i;
      '(row, c) ← compact keep row;
      row ← sliceTo row (Z.of_nat c);
      upd mat i row) mat;
  Ok {| Matrix := mat; Names := names |}.

(** [math.MaxFloat64]. *)
Definition MaxFloat64 : float := 0x1.fffffffffffffp+1023%float.

(** [Min]. *)
Definition Min (d : DistMat) : result (float * nat * nat) :=
  let n := length (Names d) in
  forLoop 0 n (fun i st =>
    forLoop 0 n (fun j '(min, minI, minJ) =>
      if decide (i ≠ j) then
        x ← idx2 (Matrix d) i j;
        if (x <? min)%float then Ok (x, i, j) else Ok (min, minI, minJ)
      else Ok (min, minI, minJ)) st) (MaxFloat64, 0, 0).

(** [Max]. *)
Definition Max (d : DistMat) : result (float * nat * nat) :=
  let n := length (Names d) in
  forLoop 0 n (fun i st =>
    forLoop 0 n (fun j '(max, maxI, maxJ) =>
      if decide (i ≠ j) then
        x ← idx2 (Matrix d) i j;
        if (max <? x)%float then Ok (x, i, j) else Ok (max, maxI, maxJ)
      else Ok (max, maxI, maxJ)) st) ((- MaxFloat64)%float, 0, 0).

(** ** Strings: the calls into [bufio], [strings] and [strconv] *)

Definition LF : ascii := ascii_of_nat 10.
Definition CR : ascii := ascii_of_nat 13.

(** [bufio.Reader.ReadString('\n')] on the input that remains: the line up
    to and including the first newline, what follows it, and whether the
    end of the input was met first ([err == io.EOF]; the bytes read so far
    are returned with it). *)
Fixpoint ReadString (r : string) : string * string * bool :=
  match r with
  | EmptyString => (EmptyString, EmptyString, true)
  | String c r' =>
    if Ascii.eqb c LF then (String c EmptyString, r', false)
    else let '(l, rest, err) := ReadString r' in (String c l, rest, err)
  end.

Definition isDigit (c : ascii) : bool :=
  (48 <=? nat_of_ascii c) && (nat_of_ascii c <=? 57).

(** [strings.IndexAny(l, "1234567890") >= 0]. *)
Fixpoint hasDigit (l : string) : bool :=
  match l with
  | EmptyString => false
  | String c l' => isDigit c || hasDigit l'
  end.

(** [strings.TrimRight(l, "\r\n")]. *)
Fixpoint TrimRight (l : string) : string :=
  match l with
  | EmptyString => EmptyString
  | String c l' =>
    match TrimRight l' with
    | EmptyString => if Ascii.eqb c CR || Ascii.eqb c LF then EmptyString
                     else String c EmptyString
    | t => String c t
    end
  end.

(** The value of a run of decimal digits. *)
Fixpoint digitsVal (acc : Z) (s : string) : option Z :=
  match s with
  | EmptyString => Some acc
  | String c s' =>
    if isDigit c then digitsVal (acc * 10 + (Z.of_nat (nat_of_ascii c) - 48))%Z s'
    else None
  end.

(** [strconv.Atoi] with a 64-bit [int]: an optional sign and at least one
    decimal digit, the value within the range of [int]. *)
Definition Atoi (s : string) : option Z :=
  let '(neg, body) :=
    match s with
    | String c t =>
      if Ascii.eqb c "-" then (true, t)
      else if Ascii.eqb c "+" then (false, t) else (false, s)
    | EmptyString => (false, s)
    end in
  match body with
  | EmptyString => None
  | _ =>
    v ← digitsVal 0 body;
    let n := (if neg then - v else v)%Z in
    if decide (- 2 ^ 63 <= n <= 2 ^ 63 - 1)%Z then Some n else None
  end.

(** The width in bytes of the white space at the head of [s], [0] when [s]
    does not start with white space: [unicode.IsSpace] over the UTF-8
    encodings of U+0009..U+000D, U+0020, U+0085, U+00A0, U+1680,
    U+2000..U+200A, U+2028, U+2029, U+202F, U+205F and U+3000. *)
Definition spaceWidth (s : string) : nat :=
  match s with
  | EmptyString => 0
  | String c s1 =>
    let b0 := nat_of_ascii c in
    if ((9 <=? b0) && (b0 <=? 13)) || (b0 =? 32) then 1
    else
      match s1 with
      | EmptyString => 0
      | String c1 s2 =>
        let b1 := nat_of_ascii c1 in
        if (b0 =? 194) && ((b1 =? 133) || (b1 =? 160)) then 2
        else
          match s2 with
          | EmptyString => 0
          | String c2 _ =>
            let b2 := nat_of_ascii c2 in
            if (b0 =? 225) && (b1 =? 154) && (b2 =? 128) then 3
            else if (b0 =? 226) && (b1 =? 128) &&
                    (((128 <=? b2) && (b2 <=? 138)) || (b2 =? 168) || (b2 =? 169)
                     || (b2 =? 175)) then 3
            else if (b0 =? 226) && (b1 =? 129) && (b2 =? 159) then 3
            else if (b0 =? 227) && (b1 =? 128) && (b2 =? 128) then 3
            else 0
          end
      end
  end.

(** [strings.Fields]: the maximal runs of bytes free of white space.
    [skip] counts the bytes of a white space rune still to be passed over,
    [cur] is the field being read, if any. *)
Fixpoint fieldsFrom (skip : nat) (cur : option string) (s : string) : list string :=
  match s with
  | EmptyString => match cur with Some f => [f] | None => [] end
  | String c s' =>
    match skip with
    | S k => fieldsFrom k cur s'
    | O =>
      match spaceWidth s with
      | O => fieldsFrom 0 (Some (match cur with Some f => f +:+ String c EmptyString
                                              | None => String c EmptyString end)) s'
      | S k => match cur with
               | Some f => f :: fieldsFrom k None s'
               | None => fieldsFrom k None s'
               end
      end
    end
  end.

Definition Fields (s : string) : list string := fieldsFrom 0 None s.

(** ** The scanner *)

(** The input not yet read and the matrix held. *)
Record Scanner : Type := mkScanner {
  r : string;
  mat : option DistMat
}.

(** [NewScanner]. *)
Definition NewScanner (input : string) : Scanner := {| r := input; mat := None |}.

(** [DistanceMatrix]. *)
Definition DistanceMatrix (s : Scanner) : option DistMat := mat s.

(** [for err == nil && strings.IndexAny(l, num) < 0 { l, err = s.r.ReadString('\n') }].
    Every turn of the loop that does not end it reads at least one byte, so
    [S (length r)] turns are enough ([skipToHeader_exit]). *)
Fixpoint skipToHeader (fuel : nat) (l : string) (err : bool) (r : string)
  : string * bool * string :=
  match fuel with
  | O => (l, err, r)
  | S f =>
    if negb err && negb (hasDigit l) then
      let '(l', r', err') := ReadString r in skipToHeader f l' err' r'
    else (l, err, r)
  end.

(** The lines read up to the header: the first line, then the loop. *)
Definition seekHeader (r : string) : string * bool * string :=
  let '(l, r, err) := ReadString r in
  skipToHeader (S (String.length r)) l err r.

Section Scan.
(** [strconv.ParseFloat(f, 64)]: the float read, or [None] when it returns
    an error.  The function belongs to Go's library. *)
Variable ParseFloat : string -> option float.

(** The body of the loop over the rows, once the line is split into
    [fields]: the name and the [n] distances of row [i] are stored. *)
Definition storeRow (fields : list string) (i n : nat) (m : DistMat) : result DistMat :=
  name ← idx fields 0;
  names ← upd (Names m) i name;
  mat ← forLoop 1 (n + 1) (fun j mat =>
           f ← idx fields j;
           match ParseFloat f with
           | Some x => upd2 mat i (j - 1) x
           | None => Fatal (CantRead f)
           end) (Matrix m);
  Ok {| Matrix := mat; Names := names |}.

(** The rows [i], ..., [i + cnt - 1] of the matrix block; [m] is the matrix
    the scanner holds. *)
Fixpoint scanRows (cnt i : nat) (n : nat) (m : DistMat) (r : string)
  : result (bool * Scanner) :=
  match cnt with
  | O => Ok (true, {| r := r; mat := Some m |})
  | S c =>
    let '(l, r, err) := ReadString r in
    if err then Ok (false, {| r := r; mat := Some m |})
    else
      m ← storeRow (Fields l) i n m;
      scanRows c (S i) n m r
  end.

(** [Scan]: the value returned and the scanner afterwards. *)
Definition Scan (s : Scanner) : result (bool * Scanner) :=
  let '(l, err, r) := seekHeader (r s) in
  if err then Ok (false, {| r := r; mat := mat s |})
  else
    let l := TrimRight l in
    match Atoi l with
    | None => Fatal (CantConvert l)
    | Some n =>
      m ← NewDistMat n;
      scanRows (Z.to_nat n) 0 (Z.to_nat n) m r
    end.
End Scan.

(** ** Reference functions *)

(** The rows of [m], each extended by the entry of [data] with its index. *)
Definition appendColumn (m : list (list float)) (data : list float) : list (list float) :=
  zip_with (fun row x => row ++ [x]) m data.

(** [d] with the taxon [name] appended, whose distances to the taxa of [d]
    are [data]. *)
Definition extended (name : string) (data : list float) (d : DistMat) : DistMat :=
  {| Matrix := appendColumn (Matrix d) data ++ [data ++ [0%float]];
     Names := Names d ++ [name] |}.

(** [s] lies within its array. *)
Definition inStore (st : store) (s : slice) : Prop :=
  len s <= cap s /\ offset s + cap s <= length (arrayOf st s).

(** [h] holds an n by n matrix whose rows lie in arrays of their own. *)
Definition stored (n : nat) (h : Memory) : Prop :=
  length (names h) = n /\ length (matrix h) = n /\
  Forall (fun s => len s = n /\ inStore (arrays h) s) (matrix h) /\
  NoDup (array <$> matrix h).




(** The elements of [l] whose index, counted from [i], satisfies [keep]. *)
Fixpoint keepFrom {A : Type} (keep : nat -> bool) (i : nat) (l : list A) : list A :=
  match l with
  | [] => []
  | x :: l' => if keep i then x :: keepFrom keep (S i) l' else keepFrom keep (S i) l'
  end.

Definition keepIf {A : Type} (keep : nat -> bool) (l : list A) : list A :=
  keepFrom keep 0 l.

(** The number of indices below [p] that satisfy [keep]: the position, among
    the elements kept, of the element with index [p]. *)
Fixpoint rank (keep : nat -> bool) (p : nat) : nat :=
  match p with
  | O => 0
  | S p' => rank keep p' + (if keep p' then 1 else 0)
  end.

(** [l] without its element of index [k]. *)
Definition removeAt {A : Type} (k : nat) (l : list A) : list A :=
  take k l ++ drop (S k) l.

(** The position of the taxon of index [p] once the taxa [t1] and [t2]
    are gone. *)
Definition pairIndex (t1 t2 p : nat) : nat :=
  p - (if t1 <? p then 1 else 0) - (if t2 <? p then 1 else 0).

(** The position of the taxon of index [p] once taxon [k] is gone. *)
Definition shiftIndex (k p : nat) : nat := if p <? k then p else p - 1.

(** [m[i][j]], if there is such an entry. *)
Definition entry {A : Type} (m : list (list A)) (i j : nat) : option A :=
  row ← m !! i; row !! j.

(** [l] without its elements of index [t1] and [t2]. *)
Definition removePair {A : Type} (t1 t2 : nat) (l : list A) : list A :=
  removeAt (Nat.min t1 t2) (removeAt (Nat.max t1 t2) l).

(** The unordered pair {p, q}, p <> q, has been averaged once the loops of
    [MakeSymmetrical] have reached the row [i] and the column [j]. *)
Definition averaged (i j p q : nat) : bool :=
  negb (p =? q) &&
  ((Nat.min p q <? i) || ((Nat.min p q =? i) && (Nat.max p q <? j))).

(** What the loops of [MakeSymmetrical] have made of the matrix [M] when
    they reach the row [i] and the column [j]: the pairs averaged hold the
    mean of the two original entries, as the code computes it (the entry
    above the diagonal first); the others are untouched. *)
Definition symInv (M : list (list float)) (n i j : nat) (mat : list (list float)) : Prop :=
  map length mat = map length M /\
  forall p q, p < n -> q < n ->
    exists x y, entry M p q = Some x /\ entry M q p = Some y /\
      entry mat p q
      = Some (if averaged i j p q
              then (if p <? q then ((x + y) / 2)%float else ((y + x) / 2)%float)
              else x).

(** The loops shared by [Min] ([lt x y] is [x < y], from [MaxFloat64]) and
    [Max] ([lt x y] is [y < x], from [-MaxFloat64]). *)
Definition extreme (lt : float -> float -> bool) (init : float) (d : DistMat)
  : result (float * nat * nat) :=
  let n := length (Names d) in
  forLoop 0 n (fun i st =>
    forLoop 0 n (fun j '(best, bestI, bestJ) =>
      if decide (i ≠ j) then
        x ← idx2 (Matrix d) i j;
        if lt x best then Ok (x, i, j) else Ok (best, bestI, bestJ)
      else Ok (best, bestI, bestJ)) st) (init, 0, 0).

(** The cell (p, q) lies off the diagonal of an n by n matrix. *)
Definition offDiagonal (n p q : nat) : Prop := p < n /\ q < n /\ p <> q.

(** The cell (p, q) comes before the cell (i, j) in row-major order. *)
Definition before (p q i j : nat) : Prop := p < i \/ (p = i /\ q < j).

(** The contract of [Min] on an n by n matrix: the value returned is the
    entry of the off-diagonal cell returned; no off-diagonal entry is
    smaller; every off-diagonal cell before it in row-major order holds a
    larger entry. *)
Definition MinContract (n : nat) (d : DistMat) : Prop :=
  exists m i j,
    Min d = Ok (m, i, j) /\ offDiagonal n i j /\ entry (Matrix d) i j = Some m /\
    (forall p q x, offDiagonal n p q -> entry (Matrix d) p q = Some x ->
       (m <=? x)%float = true) /\
    (forall p q x, offDiagonal n p q -> before p q i j -> entry (Matrix d) p q = Some x ->
       (m <? x)%float = true).

(** The contract of [Max], with the order reversed. *)
Definition MaxContract (n : nat) (d : DistMat) : Prop :=
  exists m i j,
    Max d = Ok (m, i, j) /\ offDiagonal n i j /\ entry (Matrix d) i j = Some m /\
    (forall p q x, offDiagonal n p q -> entry (Matrix d) p q = Some x ->
       (x <=? m)%float = true) /\
    (forall p q x, offDiagonal n p q -> before p q i j -> entry (Matrix d) p q = Some x ->
       (x <? m)%float = true).

(** No off-diagonal entry is NaN. *)
Definition noNaN (n : nat) (d : DistMat) : Prop :=
  forall p q x, offDiagonal n p q -> entry (Matrix d) p q = Some x -> is_nan x = false.

(** The state of the loops of [extreme] when they reach the cell (i, j):
    the best entry so far, [m], is not beyond ([le]) any off-diagonal entry
    seen; either nothing was beyond the initial value, or [m] is the entry
    of the off-diagonal cell (a, b) and is strictly beyond ([lt]) every
    off-diagonal entry seen before that cell. *)
Definition extremeInv (lt le : float -> float -> bool) (init : float) (n : nat)
    (d : DistMat) (i j : nat) (st : float * nat * nat) : Prop :=
  let '(m, a, b) := st in
  (forall p q x, offDiagonal n p q -> before p q i j -> entry (Matrix d) p q = Some x ->
     le m x = true) /\
  ((m = init /\ a = 0 /\ b = 0) \/
   (offDiagonal n a b /\ before a b i j /\ entry (Matrix d) a b = Some m /\
    forall p q x, offDiagonal n p q -> before p q a b -> entry (Matrix d) p q = Some x ->
      lt m x = true)).

(** ** Sample matrices *)

Definition threeTaxa : DistMat :=
  {| Matrix := [[0; 1; 2]; [3; 0; 5]; [6; 7; 0]]%float;
     Names := ["a"; "b"; "c"]%string |}.

(** Two taxa at an infinite distance of each other. *)
Definition farApart : DistMat :=
  {| Matrix := [[0; infinity]; [infinity; 0]]%float;
     Names := ["a"; "b"]%string |}.

(** Two taxa, one of the two distances unknown. *)
Definition halfKnown : DistMat :=
  {| Matrix := [[0; nan]; [1; 0]]%float;
     Names := ["a"; "b"]%string |}.



(** What [Delete(2)] leaves of the matrix of the rows [1 2 3], [4 5 6] and
    [7 8 9]: the rows [1 2] and [4 5], each in its array of three cells. *)
Definition twoOfThree : Memory :=
  {| arrays := [[1; 2; 3]; [4; 5; 6]; [7; 8; 9]]%float;
     matrix := [ {| array := 0; offset := 0; len := 2; cap := 3 |};
                 {| array := 1; offset := 0; len := 2; cap := 3 |} ];
     names := ["a"; "b"]%string |}.

(** [d.Matrix[1]], the second row of [twoOfThree]. *)
Definition secondRow : slice := {| array := 1; offset := 0; len := 2; cap := 3 |}.

(** ** The claims that fail, as they are stated *)



(** C7 as it is stated: [Append(name, data)] returns [h] extended by the
    name and by the elements that [data] holds when it is called. *)
Definition AppendExtends (room : nat -> nat) (name : string) (data : slice) (h : Memory)
  : Prop :=
  exists h', Append room name data h = Ok h' /\
    DistMatOf h' = extended name (elems (arrays h) data) (DistMatOf h).

(** ** Input streams *)

(** [s] holds no newline. *)
Fixpoint noNewline (s : string) : bool :=
  match s with
  | EmptyString => true
  | String c s' => negb (Ascii.eqb c LF) && noNewline s'
  end.

(** The lines [ls], each ended by a newline. *)
Fixpoint unlines (ls : list string) : string :=
  match ls with
  | [] => EmptyString
  | l :: ls' => l +:+ String LF (unlines ls')
  end.

(** A line that the search for the header passes over. *)
Definition filler (l : string) : Prop := noNewline l = true /\ hasDigit l = false.

(** A block announced for one taxon, after an empty matrix. *)
Definition twoHeaders : string := unlines ["0"; "1"]%string.

(** A block of one taxon whose row holds the name only. *)
Definition nameOnly : string := unlines ["1"; "a"]%string.

(** C1 as it is stated, for the stream [input]: once a [Scan] has
    succeeded, a [Scan] that returns false leaves the matrix held as it
    was. *)
Definition HeldMatrixKept (ParseFloat : string -> option float) (input : string) : Prop :=
  forall s1 s2,
    Scan ParseFloat (NewScanner input) = Ok (true, s1) ->
    Scan ParseFloat s1 = Ok (false, s2) ->
    DistanceMatrix s2 = DistanceMatrix s1.

(** ** The earlier revision of [Delete] *)

(** [Delete] as the earlier revision of the file has it: the dimension [n]
    is [len(d.Names)], read before the names are compacted, where the
    current revision reads [len(d.Matrix)] after it. *)
Definition DeleteByNames (taxon : Z) (d : DistMat) : result DistMat :=
  let n := length (Names d) in
  '(names, j) ← compact (isNot taxon) (Names d);
  names ← sliceTo names (Z.of_nat j);
  '(mat, ii) ← forLoop 0 n (fun i '(mat, ii) =>
      if isNot taxon i then
        '(mat, jj) ← forLoop 0 n (fun j '(mat, jj) =>
            if isNot taxon j then
              x ← idx2 mat i j;
              mat ← upd2 mat ii jj x;
              Ok (mat, S jj)
            else Ok (mat, jj)) (mat, 0);
        Ok (mat, S ii)
      else Ok (mat, ii)) (Matrix d, 0);
  let n := (Z.of_nat n - 1)%Z in
  mat ← forLoop 0 (Z.to_nat n) (fun i mat =>
      row ← idx mat i;
      row ← sliceTo row n;
      upd mat i row) mat;
  mat ← sliceTo mat n;
  Ok {| Matrix := mat; Names := names |}.

(** ** Well-formed blocks *)

(** The line [header] announces a block for [n] taxa. *)
Definition headerFor (n : nat) (header : string) : Prop :=
  noNewline header = true /\ hasDigit header = true /\
  Atoi (TrimRight (header +:+ String LF EmptyString)) = Some (Z.of_nat n).

(** The line [l], as [ReadString] returns it, holds the name [name] and
    then at least [n] fields, the first [n] of which [ParseFloat] reads as
    the floats [xs]. *)
Definition rowReads (ParseFloat : string -> option float) (n : nat) (l : string)
    (name : string) (xs : list float) : Prop :=
  exists toks, Fields l = name :: toks /\ length xs = n /\
    Forall2 (fun tok x => ParseFloat tok = Some x) (take n toks) xs.

(** The lines [ls], each to be ended by a newline, are rows for [n] taxa
    that hold the names and the floats [ps]. *)
Definition rowsRead (ParseFloat : string -> option float) (n : nat) (ls : list string)
    (ps : list (string * list float)) : Prop :=
  Forall2 (fun l p => noNewline l = true /\
                      rowReads ParseFloat n (l +:+ String LF EmptyString) (fst p) (snd p))
          ls ps.

(** A call has failed. *)
Definition failed {A : Type} (res : result A) : Prop :=
  match res with
  | Ok _ => False
  | _ => True
  end.

(** A stand-in for [strconv.ParseFloat] on sample streams: it reads the
    unsigned decimal integers, to the float that [ParseFloat] returns for
    them below 2^53, and rejects every other token, which [ParseFloat]
    need not do. *)
Fixpoint smallFloat (n : nat) : float :=
  match n with
  | O => 0%float
  | S k => (smallFloat k + 1)%float
  end.

Fixpoint wholeFloat (acc : float) (s : string) : option float :=
  match s with
  | EmptyString => Some acc
  | String c s' =>
    if isDigit c
    then wholeFloat (acc * 10 + smallFloat (nat_of_ascii c - 48))%float s'
    else None
  end.

Definition wholeNumber (tok : string) : option float :=
  match tok with
  | EmptyString => None
  | _ => wholeFloat 0%float tok
  end.

(** ** Loop rules *)

Lemma forRange_inv {St : Type} (I : nat -> St -> Prop) (body : nat -> St -> result St)
    (cnt lo : nat) (s : St) :
  I lo s ->
  (forall i t, lo <= i < lo + cnt -> I i t -> exists t', body i t = Ok t' /\ I (S i) t') ->
  exists s', forRange lo cnt body s = Ok s' /\ I (lo + cnt) s'.
Proof.
  revert lo s. induction cnt as [|c IH]; intros lo s H0 Hstep; simpl.
  - exists s. rewrite Nat.add_0_r. auto.
  - destruct (Hstep lo s) as (t & Hb & Ht); [lia | assumption |].
    rewrite Hb. simpl.
    destruct (IH (S lo) t) as (s' & Hr & Hs'); [assumption | |].
    + intros i u Hi Hu. apply Hstep; [lia | assumption].
    + exists s'. split; [assumption|]. replace (lo + S c) with (S lo + c) by lia. assumption.
Qed.

Lemma forLoop_inv {St : Type} (I : nat -> St -> Prop) (body : nat -> St -> result St)
    (lo hi : nat) (s : St) :
  lo <= hi ->
  I lo s ->
  (forall i t, lo <= i < hi -> I i t -> exists t', body i t = Ok t' /\ I (S i) t') ->
  exists s', forLoop lo hi body s = Ok s' /\ I hi s'.
Proof.
  intros Hle H0 Hstep. unfold forLoop.
  destruct (forRange_inv I body (hi - lo) lo s) as (s' & Hr & Hs'); [assumption | |].
  - intros i t Hi. apply Hstep. lia.
  - exists s'. split; [assumption|]. replace hi with (lo + (hi - lo)) by lia. assumption.
Qed.

Lemma mbind_Ok {A B : Type} (a : A) (k : A -> result B) : mbind k (Ok a) = k a.
Proof. reflexivity. Qed.

(** ** Slices: successful accesses *)

Section SliceFacts.
Context {A : Type}.
Implicit Types (l : list A).

Lemma idx_ok l i x : l !! i = Some x -> idx l i = Ok x.
Proof. intros H. unfold idx. rewrite H. reflexivity. Qed.

Lemma upd_ok l i x : i < length l -> upd l i x = Ok (<[i:=x]> l).
Proof. intros H. unfold upd. destruct (decide (i < length l)); [reflexivity | lia]. Qed.

Lemma sliceTo_ok l k : k <= length l -> sliceTo l (Z.of_nat k) = Ok (take k l).
Proof.
  intros H. unfold sliceTo.
  destruct (decide (0 <= Z.of_nat k <= Z.of_nat (length l))%Z); [|lia].
  rewrite Nat2Z.id. reflexivity.
Qed.

End SliceFacts.

Lemma idx2_ok {A : Type} (m : list (list A)) i j row x :
  m !! i = Some row -> row !! j = Some x -> idx2 m i j = Ok x.
Proof.
  intros Hr Hx. unfold idx2. rewrite (idx_ok _ _ _ Hr). simpl. apply idx_ok, Hx.
Qed.

Lemma upd2_ok {A : Type} (m : list (list A)) i j row x :
  m !! i = Some row -> j < length row -> upd2 m i j x = Ok (<[i:=<[j:=x]> row]> m).
Proof.
  intros Hr Hj. unfold upd2. rewrite (idx_ok _ _ _ Hr). simpl.
  rewrite (upd_ok _ _ _ Hj). simpl. apply upd_ok. eapply lookup_lt_Some, Hr.
Qed.

Lemma take_S_insert {A : Type} (l : list A) (i : nat) (x : A) :
  i < length l -> take (S i) (<[i:=x]> l) = take i l ++ [x].
Proof.
  intros H. rewrite (take_S_r _ _ x) by (apply list_lookup_insert_eq, H).
  rewrite take_insert_ge by lia. reflexivity.
Qed.

(** ** Append *)






Section AppendFacts.
Variable room : nat -> nat.











End AppendFacts.







(** ** Compaction in place *)

Section Compact.
Context {A : Type}.
Implicit Types (l : list A) (keep : nat -> bool).

Lemma keepFrom_app keep k l1 l2 :
  keepFrom keep k (l1 ++ l2) = keepFrom keep k l1 ++ keepFrom keep (k + length l1) l2.
Proof.
  revert k. induction l1 as [|x l1 IH]; intros k; simpl.
  - rewrite Nat.add_0_r. reflexivity.
  - rewrite IH. replace (S k + length l1) with (k + S (length l1)) by lia.
    destruct (keep k); reflexivity.
Qed.

Lemma keepFrom_length keep k l :
  length (keepFrom keep k l) + rank keep k = rank keep (k + length l).
Proof.
  revert k. induction l as [|x l IH]; intros k; simpl.
  - rewrite Nat.add_0_r. reflexivity.
  - replace (k + S (length l)) with (S k + length l) by lia.
    specialize (IH (S k)). simpl in IH. destruct (keep k); simpl; lia.
Qed.

Lemma keepIf_length keep l : length (keepIf keep l) = rank keep (length l).
Proof. pose proof (keepFrom_length keep 0 l) as H. simpl in H. unfold keepIf. lia. Qed.

Lemma rank_le keep p : rank keep p <= p.
Proof. induction p as [|p IH]; simpl; [lia|]. destruct (keep p); lia. Qed.

Lemma rank_mono keep p q : p <= q -> rank keep p <= rank keep q.
Proof.
  induction 1 as [|q _ IH]; [lia|]. simpl. destruct (keep q); lia.
Qed.

Lemma keepIf_snoc keep l x :
  keepIf keep (l ++ [x]) = keepIf keep l ++ (if keep (length l) then [x] else []).
Proof.
  unfold keepIf. rewrite keepFrom_app. simpl. destruct (keep (length l)); reflexivity.
Qed.

(** The element of index [p], when kept, is found at position [rank keep p]. *)
Lemma keepIf_lookup keep l p x :
  l !! p = Some x -> keep p = true -> keepIf keep l !! rank keep p = Some x.
Proof.
  intros Hp Hk.
  rewrite <- (take_drop_middle l p x Hp).
  unfold keepIf. rewrite keepFrom_app. simpl.
  assert (Hlen : length (take p l) = p).
  { rewrite length_take. apply lookup_lt_Some in Hp. lia. }
  rewrite Hlen, Hk.
  assert (Hr : length (keepFrom keep 0 (take p l)) = rank keep p).
  { pose proof (keepIf_length keep (take p l)) as H. unfold keepIf in H.
    rewrite H, Hlen. reflexivity. }
  rewrite lookup_app_r by lia. rewrite Hr, Nat.sub_diag. reflexivity.
Qed.

(** The loop of [compact] moves the kept elements to the front and leaves
    the rest of the slice as it was. *)
Lemma compact_spec keep l :
  compact keep l
  = Ok (keepIf keep l ++ drop (rank keep (length l)) l, rank keep (length l)).
Proof.
  unfold compact.
  destruct (forLoop_inv
    (fun i (st : list A * nat) =>
       st = (keepIf keep (take i l) ++ drop (rank keep i) l, rank keep i))
    (fun i '(l, j) => x ← idx l i; if keep i then l ← upd l j x; Ok (l, S j) else Ok (l, j))
    0 (length l) (l, 0)) as (st & Hrun & Hinv).
  - lia.
  - reflexivity.
  - intros i st Hi ->.
    destruct (lookup_lt_is_Some_2 l i) as [x Hx]; [lia|].
    pose proof (rank_le keep i) as Hle.
    assert (Hk : length (keepIf keep (take i l)) = rank keep i).
    { rewrite keepIf_length, length_take. f_equal. lia. }
    assert (Hcur : (keepIf keep (take i l) ++ drop (rank keep i) l) !! i = Some x).
    { rewrite lookup_app_r by lia. rewrite Hk, lookup_drop.
      replace (rank keep i + (i - rank keep i)) with i by lia. exact Hx. }
    rewrite (idx_ok _ _ _ Hcur). simpl.
    rewrite (take_S_r l i x Hx), keepIf_snoc, length_take.
    replace (i `min` length l) with i by lia.
    destruct (keep i) eqn:Hkeep.
    + destruct (lookup_lt_is_Some_2 l (rank keep i)) as [y Hy]; [lia|].
      rewrite upd_ok by (rewrite length_app, Hk, length_drop; lia). simpl.
      eexists. split; [reflexivity|]. f_equal; [|lia].
      rewrite insert_app_r_alt by lia. rewrite Hk, Nat.sub_diag.
      rewrite (drop_S l y _ Hy). simpl. rewrite <- app_assoc. simpl.
      replace (rank keep i + 1) with (S (rank keep i)) by lia. reflexivity.
    + eexists. split; [reflexivity|]. rewrite app_nil_r, Nat.add_0_r. reflexivity.
  - rewrite Hrun, Hinv. rewrite take_ge by lia. reflexivity.
Qed.

(** [compact] followed by the reslicing [l[:j]]. *)
Lemma compact_slice keep l :
  ('(l', j) ← compact keep l; sliceTo l' (Z.of_nat j)) = Ok (keepIf keep l).
Proof.
  rewrite compact_spec. simpl.
  rewrite sliceTo_ok.
  - rewrite take_app_length'; [reflexivity | symmetry; apply keepIf_length].
  - rewrite length_app, keepIf_length. lia.
Qed.
End Compact.

Section KeepFacts.
Context {A : Type}.
Implicit Types (l : list A) (keep : nat -> bool).

Lemma keepFrom_all keep k l :
  (forall i, k <= i < k + length l -> keep i = true) -> keepFrom keep k l = l.
Proof.
  revert k. induction l as [|x l IH]; intros k H; simpl; [reflexivity|].
  rewrite (H k) by (simpl; lia). f_equal. apply IH. intros i Hi. apply H. simpl. lia.
Qed.

Lemma isNot_true (t : Z) (i : nat) : isNot t i = true <-> Z.of_nat i <> t.
Proof. unfold isNot. rewrite negb_true_iff, Z.eqb_neq. reflexivity. Qed.

Lemma isNot_false (t : Z) (i : nat) : isNot t i = false <-> Z.of_nat i = t.
Proof. unfold isNot. rewrite negb_false_iff, Z.eqb_eq. reflexivity. Qed.

(** Keeping the indices other than [k] removes the element of index [k]. *)
Lemma keepIf_isNot (k : nat) l : keepIf (isNot (Z.of_nat k)) l = removeAt k l.
Proof.
  unfold removeAt. destruct (l !! k) as [x|] eqn:Hk.
  - rewrite <- (take_drop_middle l k x Hk) at 1.
    pose proof (lookup_lt_Some _ _ _ Hk) as Hlt.
    unfold keepIf. rewrite keepFrom_app. simpl.
    rewrite length_take. replace (k `min` length l) with k by lia.
    replace (isNot (Z.of_nat k) k) with false by (symmetry; apply isNot_false; reflexivity).
    rewrite !keepFrom_all; [reflexivity| |].
    + intros i Hi. apply isNot_true. lia.
    + intros i Hi. rewrite length_take in Hi. apply isNot_true. lia.
  - apply lookup_ge_None in Hk.
    rewrite take_ge, drop_ge, app_nil_r by lia.
    apply keepFrom_all. intros i Hi. apply isNot_true. lia.
Qed.


Lemma removeAt_length (k : nat) l : k < length l -> length (removeAt k l) = length l - 1.
Proof. intros H. unfold removeAt. rewrite length_app, length_take, length_drop. lia. Qed.
End KeepFacts.

Lemma rank_isNot (k p : nat) : rank (isNot (Z.of_nat k)) p = if p <=? k then p else p - 1.
Proof.
  induction p as [|p IH]; [reflexivity|]. cbn [rank].
  rewrite IH. destruct (isNot (Z.of_nat k) p) eqn:Hk.
  - apply isNot_true in Hk.
    destruct (Nat.leb_spec p k), (Nat.leb_spec (S p) k); lia.
  - apply isNot_false in Hk.
    destruct (Nat.leb_spec p k), (Nat.leb_spec (S p) k); lia.
Qed.

Lemma rank_isNot_shift (k p : nat) : p <> k -> rank (isNot (Z.of_nat k)) p = shiftIndex k p.
Proof.
  intros H. rewrite rank_isNot. unfold shiftIndex.
  destruct (Nat.leb_spec p k), (Nat.ltb_spec p k); lia.
Qed.

Lemma rank_pair (t1 t2 p : nat) :
  rank (fun i => isNot (Z.of_nat t1) i && isNot (Z.of_nat t2) i) (S p)
  = S p - (if t1 <? S p then 1 else 0) - (if t1 =? t2 then 0 else if t2 <? S p then 1 else 0).
Proof.
  induction p as [|p IH].
  - simpl. destruct (isNot (Z.of_nat t1) 0) eqn:H1, (isNot (Z.of_nat t2) 0) eqn:H2; simpl;
      try apply isNot_true in H1; try apply isNot_true in H2;
      try apply isNot_false in H1; try apply isNot_false in H2;
      destruct (Nat.ltb_spec t1 1), (Nat.ltb_spec t2 1), (Nat.eqb_spec t1 t2); lia.
  - change (rank ?k (S (S p))) with (rank k (S p) + (if k (S p) then 1 else 0)).
    rewrite IH. cbv beta.
    destruct (isNot (Z.of_nat t1) (S p)) eqn:H1, (isNot (Z.of_nat t2) (S p)) eqn:H2; simpl andb;
      try apply isNot_true in H1; try apply isNot_true in H2;
      try apply isNot_false in H1; try apply isNot_false in H2;
      destruct (Nat.ltb_spec t1 (S p)), (Nat.ltb_spec t2 (S p)),
               (Nat.ltb_spec t1 (S (S p))), (Nat.ltb_spec t2 (S (S p))),
               (Nat.eqb_spec t1 t2); lia.
Qed.

Lemma rank_pairIndex (t1 t2 p : nat) :
  t1 <> t2 -> p <> t1 -> p <> t2 ->
  rank (fun i => isNot (Z.of_nat t1) i && isNot (Z.of_nat t2) i) p = pairIndex t1 t2 p.
Proof.
  intros H12 H1 H2. unfold pairIndex. destruct p as [|p].
  - simpl. destruct (Nat.ltb_spec t1 0), (Nat.ltb_spec t2 0); lia.
  - rewrite rank_pair. destruct (Nat.eqb_spec t1 t2); [lia|]. reflexivity.
Qed.

(** A loop that replaces the rows [0], ..., [k - 1] one after the other. *)
Lemma rowsLoop {A : Type} (body : nat -> list (list A) -> result (list (list A)))
    (g : list A -> list A) (m : list (list A)) (k : nat) :
  k <= length m ->
  (forall i mat row, i < k -> m !! i = Some row -> mat !! i = Some row ->
     body i mat = Ok (<[i:=g row]> mat)) ->
  forLoop 0 k body m = Ok (map g (take k m) ++ drop k m).
Proof.
  intros Hk Hbody.
  destruct (forLoop_inv (fun i mat => mat = map g (take i m) ++ drop i m)
              body 0 k m) as (mat & Hrun & Hinv).
  - lia.
  - reflexivity.
  - intros i mat Hi ->.
    destruct (lookup_lt_is_Some_2 m i) as [row Hrow]; [lia|].
    assert (Hpre : length (map g (take i m)) = i).
    { rewrite length_map, length_take. lia. }
    eexists. split.
    + apply (Hbody i _ row); [lia | exact Hrow |].
      rewrite lookup_app_r by lia. rewrite Hpre, Nat.sub_diag, lookup_drop, Nat.add_0_r.
      exact Hrow.
    + rewrite insert_app_r_alt by lia. rewrite Hpre, Nat.sub_diag.
      rewrite (drop_S m row i Hrow), (take_S_r m i row Hrow). simpl.
      rewrite map_app, <- app_assoc. reflexivity.
  - rewrite Hrun, Hinv. reflexivity.
Qed.

(** ** DeletePair *)

(** [DeletePair] never fails: it keeps the names, the rows and the entries of
    each row whose index is neither [t1] nor [t2]. *)
Lemma DeletePair_run (t1 t2 : Z) (d : DistMat) :
  let keep i := isNot t1 i && isNot t2 i in
  DeletePair t1 t2 d
  = Ok {| Matrix := map (keepIf keep) (keepIf keep (Matrix d));
          Names := keepIf keep (Names d) |}.
Proof.
  intros keep. unfold DeletePair. fold keep.
  rewrite compact_spec. simpl.
  rewrite sliceTo_ok by (rewrite length_app, keepIf_length; lia). simpl.
  rewrite take_app_length' by (symmetry; apply keepIf_length).
  rewrite compact_spec. simpl.
  rewrite sliceTo_ok by (rewrite length_app, keepIf_length; lia). simpl.
  rewrite take_app_length' by (symmetry; apply keepIf_length).
  rewrite (rowsLoop _ (keepIf keep)); [| lia |].
  - simpl. rewrite take_ge, drop_ge, app_nil_r by lia. reflexivity.
  - intros i mat row Hi Hrow Hmat.
    rewrite (idx_ok _ _ _ Hmat). simpl.
    rewrite compact_spec. simpl.
    rewrite sliceTo_ok by (rewrite length_app, keepIf_length; lia). simpl.
    rewrite take_app_length' by (symmetry; apply keepIf_length).
    apply upd_ok. eapply lookup_lt_Some, Hmat.
Qed.

Section PairFacts.
Context {A : Type}.
Implicit Types (l : list A) (keep : nat -> bool).

Lemma keepFrom_ext keep keep' k l :
  (forall i, k <= i < k + length l -> keep i = keep' i) ->
  keepFrom keep k l = keepFrom keep' k l.
Proof.
  revert k. induction l as [|x l IH]; intros k H; simpl; [reflexivity|].
  rewrite (H k) by (simpl; lia).
  rewrite (IH (S k)); [reflexivity|]. intros i Hi. apply H. simpl. lia.
Qed.

Lemma removeAt_app_l (k : nat) l1 l2 :
  k < length l1 -> removeAt k (l1 ++ l2) = removeAt k l1 ++ l2.
Proof.
  intros H. unfold removeAt.
  rewrite take_app_le, drop_app_le by lia. rewrite app_assoc. reflexivity.
Qed.

Lemma removeAt_outside (k : nat) l : length l <= k -> removeAt k l = l.
Proof.
  intros H. unfold removeAt. rewrite take_ge, drop_ge, app_nil_r by lia. reflexivity.
Qed.

Lemma keepIf_ordered_pair (a b : nat) l :
  a < b ->
  keepIf (fun i => isNot (Z.of_nat a) i && isNot (Z.of_nat b) i) l
  = removeAt a (removeAt b l).
Proof.
  intros Hab. destruct (l !! b) as [x|] eqn:Hb.
  - pose proof (lookup_lt_Some _ _ _ Hb) as Hlt.
    assert (Hlen : length (take b l) = b) by (rewrite length_take; lia).
    unfold removeAt at 2. rewrite removeAt_app_l by lia.
    rewrite <- (take_drop_middle l b x Hb) at 1.
    unfold keepIf. rewrite keepFrom_app. simpl. rewrite Hlen.
    replace (isNot (Z.of_nat b) b) with false by (symmetry; apply isNot_false; reflexivity).
    rewrite andb_false_r. f_equal.
    + rewrite <- keepIf_isNot. apply keepFrom_ext.
      intros i Hi. rewrite Hlen in Hi.
      replace (isNot (Z.of_nat b) i) with true by (symmetry; apply isNot_true; lia).
      apply andb_true_r.
    + apply keepFrom_all. intros i Hi.
      apply andb_true_iff. split; apply isNot_true; lia.
  - apply lookup_ge_None in Hb. rewrite (removeAt_outside b) by lia.
    rewrite <- keepIf_isNot. apply keepFrom_ext. intros i Hi. simpl in Hi.
    replace (isNot (Z.of_nat b) i) with true by (symmetry; apply isNot_true; lia).
    apply andb_true_r.
Qed.

Lemma keepIf_pair (t1 t2 : nat) l :
  t1 <> t2 ->
  keepIf (fun i => isNot (Z.of_nat t1) i && isNot (Z.of_nat t2) i) l = removePair t1 t2 l.
Proof.
  intros H. unfold removePair. destruct (Nat.lt_total t1 t2) as [Hlt|[Heq|Hgt]]; [|lia|].
  - rewrite Nat.min_l, Nat.max_r by lia. apply keepIf_ordered_pair, Hlt.
  - rewrite Nat.min_r, Nat.max_l by lia. rewrite <- keepIf_ordered_pair by lia.
    apply keepFrom_ext. intros i _. apply andb_comm.
Qed.

Lemma removePair_length (t1 t2 : nat) l :
  t1 <> t2 -> t1 < length l -> t2 < length l -> length (removePair t1 t2 l) = length l - 2.
Proof.
  intros H H1 H2. unfold removePair.
  rewrite removeAt_length; rewrite removeAt_length; lia.
Qed.
End PairFacts.

Lemma removeAt_elem_of {A : Type} (k : nat) (l : list A) (x : A) :
  x ∈ removeAt k l -> x ∈ l.
Proof.
  unfold removeAt. intros H. apply elem_of_app in H. destruct H as [H|H].
  - exact (subseteq_take k l x H).
  - exact (subseteq_drop (S k) l x H).
Qed.

Lemma pairIndex_mono (t1 t2 p q : nat) :
  t1 <> t2 -> p <> t1 -> p <> t2 -> q <> t1 -> q <> t2 -> p < q ->
  pairIndex t1 t2 p < pairIndex t1 t2 q.
Proof.
  intros. unfold pairIndex.
  destruct (Nat.ltb_spec t1 p), (Nat.ltb_spec t2 p), (Nat.ltb_spec t1 q), (Nat.ltb_spec t2 q);
    lia.
Qed.

Lemma entry_Some {A : Type} (m : list (list A)) (i j : nat) (x : A) :
  entry m i j = Some x <-> exists row, m !! i = Some row /\ row !! j = Some x.
Proof.
  unfold entry. destruct (m !! i) as [row|]; simpl.
  - split; [intros H; exists row; auto | intros (r & [= ->] & H); exact H].
  - split; [discriminate | intros (r & [=] & _)].
Qed.

(** C6. On an n by n matrix and for two distinct indices [t1], [t2] below n,
    [DeletePair(t1, t2)] returns normally; it has removed the names, the rows
    and the columns with the original indices [t1] and [t2] and nothing
    else: the matrix is (n-2) by (n-2), the taxon of original index [p] is
    found at [pairIndex t1 t2 p], which keeps the order of the taxa, and the
    entry between two taxa that remain is the original one. *)
Theorem DeletePair_removes (n t1 t2 : nat) (d : DistMat) :
  square n d -> t1 < n -> t2 < n -> t1 <> t2 ->
  let d' := {| Matrix := map (removePair t1 t2) (removePair t1 t2 (Matrix d));
               Names := removePair t1 t2 (Names d) |} in
  DeletePair (Z.of_nat t1) (Z.of_nat t2) d = Ok d'
  /\ square (n - 2) d'
  /\ (forall p name, p <> t1 -> p <> t2 -> Names d !! p = Some name ->
        Names d' !! pairIndex t1 t2 p = Some name)
  /\ (forall p q x, p <> t1 -> p <> t2 -> q <> t1 -> q <> t2 ->
        entry (Matrix d) p q = Some x ->
        entry (Matrix d') (pairIndex t1 t2 p) (pairIndex t1 t2 q) = Some x)
  /\ (forall p q, p <> t1 -> p <> t2 -> q <> t1 -> q <> t2 -> p < q ->
        pairIndex t1 t2 p < pairIndex t1 t2 q).
Proof.
  intros (HN & HM & Hrows) H1 H2 H12 d'.
  assert (Hkeep : forall p, p <> t1 -> p <> t2 ->
            isNot (Z.of_nat t1) p && isNot (Z.of_nat t2) p = true).
  { intros p Hp1 Hp2. apply andb_true_iff. split; apply isNot_true; lia. }
  split; [|split; [|split; [|split]]].
  - rewrite DeletePair_run. unfold d'. rewrite !(keepIf_pair t1 t2) by assumption.
    f_equal. f_equal. apply map_ext. intros row. apply (keepIf_pair t1 t2), H12.
  - unfold d', square; simpl. split; [|split].
    + rewrite removePair_length; lia.
    + rewrite length_map, removePair_length; lia.
    + apply Forall_lookup_2. intros i row Hrow.
      rewrite list_lookup_fmap in Hrow.
      destruct (removePair t1 t2 (Matrix d) !! i) as [row0|] eqn:Hrow0; [|discriminate].
      simpl in Hrow. injection Hrow as <-.
      assert (Hin : row0 ∈ Matrix d).
      { apply list_elem_of_lookup_2 in Hrow0. unfold removePair in Hrow0.
        eapply removeAt_elem_of, removeAt_elem_of, Hrow0. }
      rewrite Forall_forall in Hrows. specialize (Hrows _ Hin).
      rewrite removePair_length; lia.
  - intros p name Hp1 Hp2 Hp. unfold d'; simpl.
    rewrite <- (keepIf_pair t1 t2), <- (rank_pairIndex t1 t2) by assumption.
    apply keepIf_lookup; [exact Hp | apply Hkeep; assumption].
  - intros p q x Hp1 Hp2 Hq1 Hq2 Hx. unfold d'; simpl.
    apply entry_Some in Hx. destruct Hx as (row & Hrow & Hx).
    apply entry_Some. exists (removePair t1 t2 row). split.
    + rewrite list_lookup_fmap.
      rewrite <- (keepIf_pair t1 t2), <- (rank_pairIndex t1 t2) by assumption.
      rewrite (keepIf_lookup _ _ _ _ Hrow) by (apply Hkeep; assumption). reflexivity.
    + rewrite <- (keepIf_pair t1 t2), <- (rank_pairIndex t1 t2) by assumption.
      apply keepIf_lookup; [exact Hx | apply Hkeep; assumption].
  - intros p q. apply pairIndex_mono, H12.
Qed.

(** ** Delete *)

Lemma rank_isNot_ge (t : Z) (p : nat) : p <= rank (isNot t) p + 1.
Proof.
  assert (H : forall q, (q <= rank (isNot t) q + 1) /\
                        (rank (isNot t) q < q -> (0 <= t < Z.of_nat q)%Z)).
  { induction q as [|q [IH1 IH2]]; simpl; [split; lia|].
    destruct (isNot t q) eqn:Hq.
    - apply isNot_true in Hq. split; [lia|]. intros Hlt.
      assert (rank (isNot t) q < q) as Hr by lia. specialize (IH2 Hr). lia.
    - apply isNot_false in Hq. split; [|lia].
      destruct (Nat.lt_ge_cases (rank (isNot t) q) q) as [Hr|Hr]; [|lia].
      specialize (IH2 Hr). lia. }
  apply H.
Qed.

Lemma drop_S_eq {A : Type} (l1 l2 : list A) (j : nat) :
  drop j l1 = drop j l2 -> drop (S j) l1 = drop (S j) l2.
Proof.
  intros H. rewrite <- (Nat.add_1_r j), <- !drop_drop, H. reflexivity.
Qed.

Lemma drop_lookup_eq {A : Type} (l1 l2 : list A) (j : nat) :
  drop j l1 = drop j l2 -> l1 !! j = l2 !! j.
Proof.
  intros H. rewrite <- (Nat.add_0_r j), <- !lookup_drop, H. reflexivity.
Qed.

Section DeleteLoops.
Variable taxon : Z.
Variable n : nat.
Let K := isNot taxon.

(** The loop over the columns: the kept entries of row [i] are written to
    the front of row [ii], where [ii <= i]. *)
Lemma Delete_columns (mat : list (list float)) (i ii : nat) (rowi r0 : list float) :
  mat !! i = Some rowi -> length rowi = n ->
  mat !! ii = Some r0 -> length r0 = n ->
  exists r',
    forLoop 0 n (fun j '(mat, jj) =>
        if isNot taxon j then
          x ← idx2 mat i j;
          mat ← upd2 mat ii jj x;
          Ok (mat, S jj)
        else Ok (mat, jj)) (mat, 0)
    = Ok (<[ii:=r']> mat, rank K n)
    /\ length r' = n
    /\ take (rank K n) r' = keepIf K rowi.
Proof.
  intros Hi Hli Hii Hl0.
  pose proof (lookup_lt_Some _ _ _ Hii) as Hiilt.
  destruct (forLoop_inv
    (fun j (st : list (list float) * nat) =>
       snd st = rank K j /\
       exists r, fst st = <[ii:=r]> mat /\ length r = n /\
         take (rank K j) r = keepIf K (take j rowi) /\
         exists ri, fst st !! i = Some ri /\ drop j ri = drop j rowi)
    (fun j '(mat, jj) =>
        if isNot taxon j then
          x ← idx2 mat i j; mat ← upd2 mat ii jj x; Ok (mat, S jj)
        else Ok (mat, jj))
    0 n (mat, 0)) as ([m jj] & Hrun & Hjj & r & Hm & Hlr & Htake & _).
  - lia.
  - simpl. split; [reflexivity|]. exists r0. split; [|split; [|split]].
    + symmetry. apply list_insert_id, Hii.
    + exact Hl0.
    + reflexivity.
    + exists rowi. split; [exact Hi | reflexivity].
  - intros j [m jj] Hj (Hjj & r & Hm & Hlr & Htake & ri & Hri & Hdrop).
    simpl in Hjj, Hm, Hri. subst jj m.
    destruct (lookup_lt_is_Some_2 rowi j) as [x Hx]; [lia|].
    pose proof (rank_le K j) as Hle.
    assert (Htk : take (S j) rowi = take j rowi ++ [x]) by (apply take_S_r, Hx).
    assert (Hlt : length (take j rowi) = j) by (rewrite length_take; lia).
    fold K. destruct (K j) eqn:HK.
    + assert (Hrij : ri !! j = Some x) by (rewrite (drop_lookup_eq _ _ _ Hdrop); exact Hx).
      rewrite (idx2_ok _ _ _ _ _ Hri Hrij). simpl.
      assert (Hmr : <[ii:=r]> mat !! ii = Some r) by (apply list_lookup_insert_eq, Hiilt).
      rewrite (upd2_ok _ _ _ _ _ Hmr) by lia. simpl.
      eexists. split; [reflexivity|]. simpl. rewrite HK.
      split; [lia|]. exists (<[rank K j:=x]> r).
      rewrite list_insert_insert_eq. split; [reflexivity|].
      split; [rewrite length_insert; exact Hlr|]. split.
      * replace (rank K j + 1) with (S (rank K j)) by lia.
        rewrite (take_S_r _ _ x) by (apply list_lookup_insert_eq; lia).
        rewrite take_insert_ge by lia. rewrite Htake, Htk, keepIf_snoc, Hlt, HK.
        reflexivity.
      * destruct (decide (ii = i)) as [-> | Hne].
        -- rewrite Hmr in Hri. injection Hri as <-.
           exists (<[rank K j:=x]> r). split.
           ++ apply list_lookup_insert_eq, Hiilt.
           ++ rewrite drop_insert_lt by lia. apply drop_S_eq, Hdrop.
        -- exists ri. split.
           ++ rewrite list_lookup_insert_ne by assumption.
              rewrite list_lookup_insert_ne in Hri by assumption. exact Hri.
           ++ apply drop_S_eq, Hdrop.
    + eexists. split; [reflexivity|]. simpl. rewrite HK.
      split; [lia|]. exists r. split; [reflexivity|]. split; [exact Hlr|]. split.
      * rewrite Nat.add_0_r, Htake, Htk, keepIf_snoc, Hlt, HK, app_nil_r. reflexivity.
      * exists ri. split; [exact Hri | apply drop_S_eq, Hdrop].
  - simpl in Hjj, Hm. subst jj m. exists r. split; [exact Hrun|]. split; [exact Hlr|].
    rewrite Htake, take_ge by lia. reflexivity.
Qed.
End DeleteLoops.

(** The loop over the rows of [Delete]: the kept rows are moved up, each
    with its kept entries in front. *)
Lemma Delete_rows (taxon : Z) (n : nat) (M : list (list float)) :
  length M = n -> Forall (fun row => length row = n) M ->
  exists mat,
    forLoop 0 n (fun i '(mat, ii) =>
        if isNot taxon i then
          '(mat, jj) ← forLoop 0 n (fun j '(mat, jj) =>
              if isNot taxon j then
                x ← idx2 mat i j;
                mat ← upd2 mat ii jj x;
                Ok (mat, S jj)
              else Ok (mat, jj)) (mat, 0);
          Ok (mat, S ii)
        else Ok (mat, ii)) (M, 0)
    = Ok (mat, rank (isNot taxon) n)
    /\ length mat = n
    /\ Forall (fun row => length row = n) mat
    /\ map (take (n - 1)) (take (rank (isNot taxon) n) mat)
       = map (fun row => take (n - 1) (keepIf (isNot taxon) row)) (keepIf (isNot taxon) M).
Proof.
  intros HM Hrows.
  destruct (forLoop_inv
    (fun i (st : list (list float) * nat) =>
       snd st = rank (isNot taxon) i /\ length (fst st) = n /\
       Forall (fun row => length row = n) (fst st) /\
       drop i (fst st) = drop i M /\
       map (take (n - 1)) (take (rank (isNot taxon) i) (fst st))
       = map (fun row => take (n - 1) (keepIf (isNot taxon) row)) (keepIf (isNot taxon) (take i M)))
    (fun i '(mat, ii) =>
        if isNot taxon i then
          '(mat, jj) ← forLoop 0 n (fun j '(mat, jj) =>
              if isNot taxon j then
                x ← idx2 mat i j; mat ← upd2 mat ii jj x; Ok (mat, S jj)
              else Ok (mat, jj)) (mat, 0);
          Ok (mat, S ii)
        else Ok (mat, ii))
    0 n (M, 0)) as ([mat ii] & Hrun & Hii & Hlen & Hall & _ & Hmap).
  - lia.
  - simpl. auto.
  - intros i [mat ii] Hi (Hii & Hlen & Hall & Hdrop & Hmap).
    simpl in Hii, Hlen, Hall, Hdrop, Hmap. subst ii.
    destruct (lookup_lt_is_Some_2 M i) as [rowi Hrowi]; [lia|].
    pose proof (rank_le (isNot taxon) i) as Hle.
    assert (Hmi : mat !! i = Some rowi) by (rewrite (drop_lookup_eq _ _ _ Hdrop); exact Hrowi).
    assert (Hli : length rowi = n) by (apply (Forall_lookup_1 _ _ _ _ Hrows Hrowi)).
    assert (Htk : take (S i) M = take i M ++ [rowi]) by (apply take_S_r, Hrowi).
    assert (Hlt : length (take i M) = i) by (rewrite length_take; lia).
    destruct (isNot taxon i) eqn:HK.
    + destruct (lookup_lt_is_Some_2 mat (rank (isNot taxon) i)) as [r0 Hr0]; [lia|].
      assert (Hl0 : length r0 = n) by (apply (Forall_lookup_1 _ _ _ _ Hall Hr0)).
      destruct (Delete_columns taxon n mat i (rank (isNot taxon) i) rowi r0 Hmi Hli Hr0 Hl0)
        as (r' & Hinner & Hlr' & Htake).
      rewrite Hinner. simpl. eexists. split; [reflexivity|]. simpl. rewrite HK.
      split; [lia|]. split; [rewrite length_insert; exact Hlen|].
      split; [apply Forall_insert; assumption|]. split.
      * rewrite drop_insert_lt by lia. apply drop_S_eq, Hdrop.
      * replace (rank (isNot taxon) i + 1) with (S (rank (isNot taxon) i)) by lia.
        rewrite (take_S_r _ _ r') by (apply list_lookup_insert_eq; lia).
        rewrite take_insert_ge by lia.
        rewrite Htk, keepIf_snoc, Hlt, HK, !map_app, Hmap. simpl.
        f_equal. f_equal. rewrite <- Htake, take_take.
        pose proof (rank_isNot_ge taxon n).
        replace ((n - 1) `min` rank (isNot taxon) n) with (n - 1) by lia. reflexivity.
    + eexists. split; [reflexivity|]. simpl. rewrite HK, Nat.add_0_r.
      split; [reflexivity|]. split; [exact Hlen|]. split; [exact Hall|]. split.
      * apply drop_S_eq, Hdrop.
      * rewrite Htk, keepIf_snoc, Hlt, HK, app_nil_r. exact Hmap.
  - simpl in Hii, Hlen, Hall, Hmap. subst ii. exists mat.
    rewrite (take_ge M) in Hmap by lia. auto.
Qed.

(** [Delete] on a matrix with n >= 1 rows of length n, for any index: the
    names other than that of index [taxon] are kept; so are, of the matrix,
    the rows and the entries of each row with another index, but no more
    than n - 1 of them. *)
Lemma Delete_run (taxon : Z) (n : nat) (d : DistMat) :
  1 <= n -> length (Matrix d) = n -> Forall (fun row => length row = n) (Matrix d) ->
  Delete taxon d
  = Ok {| Matrix := take (n - 1)
                      (map (fun row => take (n - 1) (keepIf (isNot taxon) row))
                           (keepIf (isNot taxon) (Matrix d)));
          Names := keepIf (isNot taxon) (Names d) |}.
Proof.
  intros Hn HM Hrows. unfold Delete.
  rewrite compact_spec. simpl.
  rewrite sliceTo_ok by (rewrite length_app, keepIf_length; lia). simpl.
  rewrite take_app_length' by (symmetry; apply keepIf_length).
  rewrite HM.
  destruct (Delete_rows taxon n (Matrix d) HM Hrows) as (mat & Hrun & Hlen & Hall & Hmap).
  rewrite Hrun. simpl.
  replace (Z.of_nat n - 1)%Z with (Z.of_nat (n - 1)) by lia. rewrite Nat2Z.id.
  rewrite (rowsLoop _ (take (n - 1))); [| lia |].
  - simpl. rewrite sliceTo_ok by (rewrite length_app, length_map, length_take, length_drop; lia).
    simpl. f_equal. f_equal.
    rewrite take_app_length' by (rewrite length_map, length_take; lia).
    pose proof (rank_isNot_ge taxon n) as Hge.
    rewrite <- Hmap, <- fmap_take, take_take.
    replace ((n - 1) `min` rank (isNot taxon) n) with (n - 1) by lia. reflexivity.
  - intros i m row Hi Hrow Hm.
    rewrite (idx_ok _ _ _ Hm). simpl.
    rewrite sliceTo_ok by (rewrite (Forall_lookup_1 _ _ _ _ Hall Hrow); lia). simpl.
    apply upd_ok. eapply lookup_lt_Some, Hm.
Qed.

(** C5. On an n by n matrix and for an index [k] below n, [Delete(k)]
    returns normally; the names are those before without the name of index
    [k], in the same order; the matrix is (n-1) by (n-1), and the entry
    between two taxa of original indices [p] and [q] other than [k] is found
    unchanged at their new positions. *)
Theorem Delete_removes (n k : nat) (d : DistMat) :
  square n d -> k < n ->
  let d' := {| Matrix := map (removeAt k) (removeAt k (Matrix d));
               Names := removeAt k (Names d) |} in
  Delete (Z.of_nat k) d = Ok d'
  /\ square (n - 1) d'
  /\ (forall p name, p <> k -> Names d !! p = Some name ->
        Names d' !! shiftIndex k p = Some name)
  /\ (forall p q x, p <> k -> q <> k -> entry (Matrix d) p q = Some x ->
        entry (Matrix d') (shiftIndex k p) (shiftIndex k q) = Some x).
Proof.
  intros (HN & HM & Hrows) Hk d'.
  assert (Hkeep : forall p, p <> k -> isNot (Z.of_nat k) p = true).
  { intros p Hp. apply isNot_true. lia. }
  split; [|split; [|split]].
  - rewrite (Delete_run _ n) by (assumption || lia). unfold d'.
    rewrite !keepIf_isNot. f_equal. f_equal.
    rewrite take_ge by (rewrite length_map, removeAt_length; lia).
    apply list_eq. intros i. rewrite !list_lookup_fmap.
    destruct (removeAt k (Matrix d) !! i) as [row|] eqn:Hrow; [|reflexivity]. simpl.
    assert (Hin : row ∈ Matrix d).
    { eapply removeAt_elem_of, list_elem_of_lookup_2, Hrow. }
    rewrite Forall_forall in Hrows. specialize (Hrows _ Hin).
    rewrite keepIf_isNot, take_ge by (rewrite removeAt_length; lia). reflexivity.
  - unfold d', square; simpl. split; [|split].
    + rewrite removeAt_length; lia.
    + rewrite length_map, removeAt_length; lia.
    + apply Forall_lookup_2. intros i row Hrow.
      rewrite list_lookup_fmap in Hrow.
      destruct (removeAt k (Matrix d) !! i) as [row0|] eqn:Hrow0; [|discriminate].
      simpl in Hrow. injection Hrow as <-.
      assert (Hin : row0 ∈ Matrix d).
      { eapply removeAt_elem_of, list_elem_of_lookup_2, Hrow0. }
      rewrite Forall_forall in Hrows. specialize (Hrows _ Hin).
      rewrite removeAt_length; lia.
  - intros p name Hp Hname. unfold d'; simpl.
    rewrite <- keepIf_isNot, <- rank_isNot_shift by assumption.
    apply keepIf_lookup; [exact Hname | apply Hkeep, Hp].
  - intros p q x Hp Hq Hx. unfold d'; simpl.
    apply entry_Some in Hx. destruct Hx as (row & Hrow & Hx).
    apply entry_Some. exists (removeAt k row). split.
    + rewrite list_lookup_fmap.
      rewrite <- keepIf_isNot, <- rank_isNot_shift by assumption.
      rewrite (keepIf_lookup _ _ _ _ Hrow) by (apply Hkeep, Hp). reflexivity.
    + rewrite <- keepIf_isNot, <- rank_isNot_shift by assumption.
      apply keepIf_lookup; [exact Hx | apply Hkeep, Hq].
Qed.

(** ** Entries of a matrix *)

Lemma upd2_entry {A : Type} (m : list (list A)) (i j : nat) (x : A) :
  is_Some (entry m i j) ->
  exists m', upd2 m i j x = Ok m' /\
    map length m' = map length m /\
    forall p q, entry m' p q = if decide (p = i /\ q = j) then Some x else entry m p q.
Proof.
  intros [y Hy]. apply entry_Some in Hy. destruct Hy as (row & Hrow & Hy).
  pose proof (lookup_lt_Some _ _ _ Hrow) as Hi.
  pose proof (lookup_lt_Some _ _ _ Hy) as Hj.
  exists (<[i:=<[j:=x]> row]> m). split; [apply upd2_ok; assumption|]. split.
  - rewrite list_fmap_insert, length_insert. apply list_insert_id.
    rewrite list_lookup_fmap, Hrow. reflexivity.
  - intros p q. unfold entry. destruct (decide (p = i /\ q = j)) as [[-> ->]|Hne].
    + rewrite list_lookup_insert_eq by assumption. simpl.
      apply list_lookup_insert_eq, Hj.
    + destruct (decide (p = i)) as [-> | Hp].
      * rewrite list_lookup_insert_eq by assumption. rewrite Hrow. simpl.
        apply list_lookup_insert_ne. intros ->. apply Hne. auto.
      * rewrite list_lookup_insert_ne by auto. reflexivity.
Qed.

Lemma idx2_entry {A : Type} (m : list (list A)) (i j : nat) (x : A) :
  entry m i j = Some x -> idx2 m i j = Ok x.
Proof.
  intros H. apply entry_Some in H. destruct H as (row & Hrow & Hx).
  eapply idx2_ok; eassumption.
Qed.

Lemma square_entry (n : nat) (d : DistMat) (p q : nat) :
  square n d -> p < n -> q < n -> is_Some (entry (Matrix d) p q).
Proof.
  intros (_ & HM & Hrows) Hp Hq.
  destruct (lookup_lt_is_Some_2 (Matrix d) p) as [row Hrow]; [lia|].
  pose proof (Forall_lookup_1 _ _ _ _ Hrows Hrow) as Hl. simpl in Hl.
  destruct (lookup_lt_is_Some_2 row q) as [x Hx]; [lia|].
  exists x. apply entry_Some. eauto.
Qed.

Lemma entry_lt {A : Type} (m : list (list A)) (n p q : nat) :
  length m = n -> Forall (fun row => length row = n) m ->
  is_Some (entry m p q) -> p < n /\ q < n.
Proof.
  intros HM Hrows [x Hx]. apply entry_Some in Hx. destruct Hx as (row & Hrow & Hx).
  pose proof (Forall_lookup_1 _ _ _ _ Hrows Hrow) as Hl. simpl in Hl.
  apply lookup_lt_Some in Hrow, Hx. lia.
Qed.

Lemma map_length_square (n : nat) (m m' : list (list float)) :
  map length m' = map length m ->
  length m = n -> Forall (fun row => length row = n) m ->
  length m' = n /\ Forall (fun row => length row = n) m'.
Proof.
  intros H HM Hrows. split.
  - rewrite <- HM, <- (length_map length m'), H. apply length_map.
  - apply Forall_lookup_2. intros i row' Hrow'.
    assert (Hl : map length m' !! i = Some (length row')).
    { rewrite list_lookup_fmap, Hrow'. reflexivity. }
    rewrite H, list_lookup_fmap in Hl.
    destruct (m !! i) as [row|] eqn:Hrow; [|discriminate].
    simpl in Hl. injection Hl as Hl. rewrite <- Hl.
    apply (Forall_lookup_1 _ _ _ _ Hrows Hrow).
Qed.

(** ** Floats *)

Lemma SFadd_comm (prec emax : Z) (x y : spec_float) :
  SFadd prec emax x y = SFadd prec emax y x.
Proof.
  destruct x as [sx|sx| |sx mx ex], y as [sy|sy| |sy my ey]; simpl; try reflexivity;
    try (destruct sx, sy; reflexivity).
  rewrite Z.min_comm, Z.add_comm. reflexivity.
Qed.

(** IEEE 754 addition is commutative. *)
Lemma float_add_comm (x y : float) : (x + y)%float = (y + x)%float.
Proof. apply Prim2SF_inj. rewrite !FloatAxioms.add_spec. apply SFadd_comm. Qed.

(** ** MakeSymmetrical *)

Lemma averaged_spec (i j p q : nat) :
  averaged i j p q = true <->
  p <> q /\ (Nat.min p q < i \/ (Nat.min p q = i /\ Nat.max p q < j)).
Proof.
  unfold averaged.
  rewrite andb_true_iff, negb_true_iff, orb_true_iff, andb_true_iff.
  rewrite Nat.eqb_neq, !Nat.ltb_lt, Nat.eqb_eq. reflexivity.
Qed.

Lemma averaged_ext (i j i' j' p q : nat) :
  (p <> q /\ (Nat.min p q < i \/ (Nat.min p q = i /\ Nat.max p q < j)) <->
   p <> q /\ (Nat.min p q < i' \/ (Nat.min p q = i' /\ Nat.max p q < j'))) ->
  averaged i j p q = averaged i' j' p q.
Proof.
  intros H. apply eq_true_iff_eq. rewrite !averaged_spec. exact H.
Qed.

Lemma symInv_ext (M : list (list float)) (n i j i' j' : nat) (mat : list (list float)) :
  (forall p q, p < n -> q < n -> averaged i j p q = averaged i' j' p q) ->
  symInv M n i j mat -> symInv M n i' j' mat.
Proof.
  intros Hext (Hlen & Hent). split; [exact Hlen|].
  intros p q Hp Hq. destruct (Hent p q Hp Hq) as (x & y & Hx & Hy & Hm).
  exists x, y. rewrite <- Hext by assumption. auto.
Qed.

(** The loop over [j]. *)
Lemma MakeSymmetrical_inner (M : list (list float)) (n i : nat) (mat : list (list float)) :
  i + 1 <= n ->
  symInv M n i (i + 1) mat ->
  exists mat',
    forLoop (i + 1) n (fun j mat =>
        m1 ← idx2 mat i j;
        m2 ← idx2 mat j i;
        let a := ((m1 + m2) / 2)%float in
        mat ← upd2 mat i j a;
        upd2 mat j i a) mat = Ok mat'
    /\ symInv M n i n mat'.
Proof.
  intros Hi Hinv.
  apply (forLoop_inv (fun j mat => symInv M n i j mat)); [lia | exact Hinv |].
  clear mat Hinv. intros j mat Hj (Hlen & Hent).
  destruct (Hent i j) as (x & y & Hx & Hy & Hij); [lia | lia |].
  destruct (Hent j i) as (y' & x' & Hy' & Hx' & Hji); [lia | lia |].
  rewrite Hx in Hx'. injection Hx' as <-. rewrite Hy in Hy'. injection Hy' as <-.
  assert (Hn1 : averaged i j i j = false).
  { apply not_true_iff_false. rewrite averaged_spec. lia. }
  assert (Hn2 : averaged i j j i = false).
  { apply not_true_iff_false. rewrite averaged_spec. lia. }
  rewrite Hn1 in Hij. rewrite Hn2 in Hji.
  rewrite (idx2_entry _ _ _ _ Hij). simpl. rewrite (idx2_entry _ _ _ _ Hji). simpl.
  destruct (upd2_entry mat i j ((x + y) / 2)%float) as (mat1 & Hu1 & Hl1 & He1).
  { rewrite Hij. eauto. }
  rewrite Hu1. simpl.
  destruct (upd2_entry mat1 j i ((x + y) / 2)%float) as (mat2 & Hu2 & Hl2 & He2).
  { rewrite He1. destruct (decide (j = i /\ i = j)); [eauto | rewrite Hji; eauto]. }
  exists mat2. split; [exact Hu2|]. split; [congruence|].
  intros p q Hp Hq. destruct (Hent p q Hp Hq) as (u & v & Hu & Hv & Hpq).
  exists u, v. split; [exact Hu|]. split; [exact Hv|].
  rewrite He2, He1.
  destruct (decide (p = j /\ q = i)) as [[-> ->]|Hne2].
  - rewrite Hy in Hu. injection Hu as <-. rewrite Hx in Hv. injection Hv as <-.
    replace (averaged i (S j) j i) with true by (symmetry; apply averaged_spec; lia).
    replace (j <? i) with false by (symmetry; apply Nat.ltb_ge; lia). reflexivity.
  - destruct (decide (p = i /\ q = j)) as [[-> ->]|Hne1].
    + rewrite Hx in Hu. injection Hu as <-. rewrite Hy in Hv. injection Hv as <-.
      replace (averaged i (S j) i j) with true by (symmetry; apply averaged_spec; lia).
      replace (i <? j) with true by (symmetry; apply Nat.ltb_lt; lia). reflexivity.
    + rewrite Hpq. f_equal.
      replace (averaged i (S j) p q) with (averaged i j p q); [reflexivity|].
      apply averaged_ext. lia.
Qed.

(** The two loops. *)
Lemma MakeSymmetrical_loops (M : list (list float)) (n : nat) :
  length M = n -> Forall (fun row => length row = n) M ->
  exists mat,
    forLoop 0 (n - 1) (fun i mat =>
        forLoop (i + 1) n (fun j mat =>
          m1 ← idx2 mat i j;
          m2 ← idx2 mat j i;
          let a := ((m1 + m2) / 2)%float in
          mat ← upd2 mat i j a;
          upd2 mat j i a) mat) M = Ok mat
    /\ symInv M n (n - 1) 0 mat.
Proof.
  intros HM Hrows.
  apply (forLoop_inv (fun i mat => symInv M n i 0 mat)); [lia | |].
  - split; [reflexivity|]. intros p q Hp Hq.
    destruct (square_entry n {| Matrix := M; Names := replicate n EmptyString |} p q)
      as [x Hx]; [| assumption | assumption |].
    { split; [apply length_replicate | split; assumption]. }
    destruct (square_entry n {| Matrix := M; Names := replicate n EmptyString |} q p)
      as [y Hy]; [| assumption | assumption |].
    { split; [apply length_replicate | split; assumption]. }
    simpl in Hx, Hy. exists x, y. split; [exact Hx|]. split; [exact Hy|].
    replace (averaged 0 0 p q) with false; [exact Hx|].
    symmetry. apply not_true_iff_false. rewrite averaged_spec. lia.
  - intros i mat Hi Hinv.
    destruct (MakeSymmetrical_inner M n i mat) as (mat' & Hrun & Hinv'); [lia | |].
    + revert Hinv. apply symInv_ext. intros p q _ _. apply averaged_ext. lia.
    + exists mat'. split; [exact Hrun|].
      revert Hinv'. apply symInv_ext. intros p q Hp Hq. apply averaged_ext. lia.
Qed.

(** C8. On a square matrix, [MakeSymmetrical] returns normally; afterwards,
    for every pair of indices i <> j, the entries (i, j) and (j, i) both are
    the float [(original[i][j] + original[j][i]) / 2], and every entry on
    the diagonal is the original one.  The names and the dimension are
    unchanged. *)
Theorem MakeSymmetrical_averages (n : nat) (d : DistMat) :
  square n d ->
  exists d',
    MakeSymmetrical d = Ok d'
    /\ square n d'
    /\ Names d' = Names d
    /\ (forall i j x y, i <> j ->
          entry (Matrix d) i j = Some x -> entry (Matrix d) j i = Some y ->
          entry (Matrix d') i j = Some ((x + y) / 2)%float /\
          entry (Matrix d') j i = Some ((x + y) / 2)%float)
    /\ (forall i x, entry (Matrix d) i i = Some x -> entry (Matrix d') i i = Some x).
Proof.
  intros (HN & HM & Hrows).
  destruct (MakeSymmetrical_loops (Matrix d) n HM Hrows) as (mat & Hrun & Hlen & Hent).
  destruct (map_length_square n _ _ Hlen HM Hrows) as (HM' & Hrows').
  exists {| Matrix := mat; Names := Names d |}.
  split; [|split; [|split; [|split]]].
  - unfold MakeSymmetrical. cbv zeta in Hrun |- *. rewrite HM, Hrun. reflexivity.
  - split; [exact HN | split; assumption].
  - reflexivity.
  - intros i j x y Hij Hx Hy. simpl.
    destruct (entry_lt (Matrix d) n i j HM Hrows) as (Hi & Hj); [rewrite Hx; eauto|].
    destruct (Hent i j Hi Hj) as (x1 & y1 & Hx1 & Hy1 & E1).
    destruct (Hent j i Hj Hi) as (y2 & x2 & Hy2 & Hx2 & E2).
    rewrite Hx in Hx1, Hx2. rewrite Hy in Hy1, Hy2.
    injection Hx1 as <-. injection Hx2 as <-. injection Hy1 as <-. injection Hy2 as <-.
    replace (averaged (n - 1) 0 i j) with true in E1
      by (symmetry; apply averaged_spec; lia).
    replace (averaged (n - 1) 0 j i) with true in E2
      by (symmetry; apply averaged_spec; lia).
    rewrite E1, E2.
    destruct (Nat.ltb_spec i j), (Nat.ltb_spec j i); try lia;
      rewrite ?(float_add_comm y x); auto.
  - intros i x Hx. simpl.
    destruct (entry_lt (Matrix d) n i i HM Hrows) as (Hi & _); [rewrite Hx; eauto|].
    destruct (Hent i i Hi Hi) as (x1 & y1 & Hx1 & _ & E).
    rewrite Hx in Hx1. injection Hx1 as <-.
    replace (averaged (n - 1) 0 i i) with false in E; [exact E|].
    symmetry. apply not_true_iff_false. rewrite averaged_spec. lia.
Qed.

(** ** The order of the floats *)

Lemma SFcompare_antisym (x y : spec_float) :
  SFcompare y x = option_map CompOpp (SFcompare x y).
Proof.
  destruct x as [sx|sx| |sx mx ex], y as [sy|sy| |sy my ey]; simpl; try reflexivity;
    try (destruct sx; reflexivity); try (destruct sy; reflexivity);
    try (destruct sx, sy; reflexivity).
  assert (H : Pos.compare_cont Eq my mx = CompOpp (Pos.compare_cont Eq mx my)).
  { rewrite Pos.compare_cont_antisym. reflexivity. }
  rewrite (Z.compare_antisym ex ey), H.
  destruct sx, sy; simpl; try reflexivity;
    destruct (ex ?= ey)%Z; simpl; try reflexivity;
    destruct (Pos.compare_cont Eq mx my); reflexivity.
Qed.

Lemma SFcompare_refl (x : spec_float) : x <> S754_nan -> SFcompare x x = Some Eq.
Proof.
  destruct x as [s|s| |s m e]; simpl; try congruence; intros _.
  - destruct s; reflexivity.
  - rewrite Z.compare_refl, Pos.compare_cont_refl. destruct s; reflexivity.
Qed.

Lemma SFcompare_None (x y : spec_float) :
  SFcompare x y = None -> x = S754_nan \/ y = S754_nan.
Proof.
  destruct x as [sx|sx| |sx mx ex], y as [sy|sy| |sy my ey]; simpl; auto; discriminate.
Qed.

Ltac float_cases :=
  simpl; try discriminate; try reflexivity;
  repeat match goal with
         | s : bool |- _ => destruct s
         end;
  simpl; try discriminate; try reflexivity.

Lemma SFltb_leb_trans (x y z : spec_float) :
  SFltb x y = true -> SFleb y z = true -> SFltb x z = true.
Proof.
  unfold SFltb, SFleb.
  destruct x as [sx|sx| |sx mx ex], y as [sy|sy| |sy my ey], z as [sz|sz| |sz mz ez];
    float_cases;
    rewrite !Pos.compare_cont_spec; simpl;
    destruct (Z.compare_spec ex ey), (Z.compare_spec ey ez), (Z.compare_spec ex ez);
    try discriminate; try reflexivity; try lia;
    destruct (Pos.compare_spec mx my), (Pos.compare_spec my mz), (Pos.compare_spec mx mz);
    simpl; try discriminate; try reflexivity; lia.
Qed.

Lemma SFleb_ltb_trans (x y z : spec_float) :
  SFleb x y = true -> SFltb y z = true -> SFltb x z = true.
Proof.
  unfold SFltb, SFleb.
  destruct x as [sx|sx| |sx mx ex], y as [sy|sy| |sy my ey], z as [sz|sz| |sz mz ez];
    float_cases;
    rewrite !Pos.compare_cont_spec; simpl;
    destruct (Z.compare_spec ex ey), (Z.compare_spec ey ez), (Z.compare_spec ex ez);
    try discriminate; try reflexivity; try lia;
    destruct (Pos.compare_spec mx my), (Pos.compare_spec my mz), (Pos.compare_spec mx mz);
    simpl; try discriminate; try reflexivity; lia.
Qed.

Section FloatOrder.
Implicit Types x y z : float.
Local Open Scope float_scope.

Lemma is_nan_false x : is_nan x = false -> Prim2SF x <> S754_nan.
Proof.
  unfold is_nan. rewrite negb_false_iff, FloatAxioms.eqb_spec. unfold SFeqb.
  intros H Hn. rewrite Hn in H. discriminate.
Qed.

Lemma float_leb_refl x : is_nan x = false -> (x <=? x) = true.
Proof.
  intros H. rewrite FloatAxioms.leb_spec. unfold SFleb.
  rewrite SFcompare_refl by (apply is_nan_false, H). reflexivity.
Qed.

Lemma float_ltb_leb x y : (x <? y) = true -> (x <=? y) = true.
Proof.
  rewrite FloatAxioms.ltb_spec, FloatAxioms.leb_spec. unfold SFltb, SFleb.
  destruct (SFcompare (Prim2SF x) (Prim2SF y)) as [[]|]; auto.
Qed.

Lemma float_ltb_leb_trans x y z : (x <? y) = true -> (y <=? z) = true -> (x <? z) = true.
Proof. rewrite !FloatAxioms.ltb_spec, FloatAxioms.leb_spec. apply SFltb_leb_trans. Qed.

Lemma float_leb_ltb_trans x y z : (x <=? y) = true -> (y <? z) = true -> (x <? z) = true.
Proof. rewrite !FloatAxioms.ltb_spec, FloatAxioms.leb_spec. apply SFleb_ltb_trans. Qed.

(** The order is total on the floats other than NaN. *)
Lemma float_not_ltb x y :
  is_nan x = false -> is_nan y = false -> (x <? y) = false -> (y <=? x) = true.
Proof.
  intros Hx Hy. apply is_nan_false in Hx, Hy.
  rewrite FloatAxioms.ltb_spec, FloatAxioms.leb_spec. unfold SFltb, SFleb.
  rewrite (SFcompare_antisym (Prim2SF x) (Prim2SF y)).
  destruct (SFcompare (Prim2SF x) (Prim2SF y)) as [[]|] eqn:Hc; simpl; auto.
  apply SFcompare_None in Hc. tauto.
Qed.

Lemma float_ltb_not_leb x y : (x <? y) = true -> (y <=? x) = true -> False.
Proof.
  rewrite FloatAxioms.ltb_spec, FloatAxioms.leb_spec. unfold SFltb, SFleb.
  rewrite (SFcompare_antisym (Prim2SF x) (Prim2SF y)).
  destruct (SFcompare (Prim2SF x) (Prim2SF y)) as [[]|]; simpl; discriminate.
Qed.
End FloatOrder.

(** ** Min and Max *)

Lemma Min_extreme (d : DistMat) : Min d = extreme (fun x y => (x <? y)%float) MaxFloat64 d.
Proof. reflexivity. Qed.

Lemma Max_extreme (d : DistMat) :
  Max d = extreme (fun x y => (y <? x)%float) (- MaxFloat64)%float d.
Proof. reflexivity. Qed.

Section Extreme.
Variables lt le : float -> float -> bool.
Variable init : float.
Hypothesis le_refl : forall x, is_nan x = false -> le x x = true.
Hypothesis lt_le : forall x y, lt x y = true -> le x y = true.
Hypothesis lt_le_trans : forall x y z, lt x y = true -> le y z = true -> lt x z = true.
Hypothesis not_lt : forall x y,
  is_nan x = false -> is_nan y = false -> lt x y = false -> le y x = true.
Hypothesis lt_not_le : forall x y, lt x y = true -> le y x = true -> False.
Hypothesis init_number : is_nan init = false.

Variable n : nat.
Variable d : DistMat.
Hypothesis d_square : square n d.
Hypothesis d_noNaN : noNaN n d.

Local Abbreviation Inv := (extremeInv lt le init n d).

Lemma extremeInv_number i j m a b : Inv i j (m, a, b) -> is_nan m = false.
Proof.
  intros (_ & [(-> & _)|(Hab & _ & Hm & _)]); [exact init_number|].
  eapply d_noNaN; eassumption.
Qed.

Lemma extreme_inner (i : nat) (st : float * nat * nat) :
  i < n ->
  Inv i 0 st ->
  exists st',
    forLoop 0 n (fun j '(best, bestI, bestJ) =>
        if decide (i ≠ j) then
          x ← idx2 (Matrix d) i j;
          if lt x best then Ok (x, i, j) else Ok (best, bestI, bestJ)
        else Ok (best, bestI, bestJ)) st = Ok st'
    /\ Inv i n st'.
Proof.
  intros Hi Hinv.
  apply (forLoop_inv (fun j st => Inv i j st)); [lia | exact Hinv |].
  clear st Hinv. intros j [[m a] b] Hj Hinv.
  pose proof (extremeInv_number _ _ _ _ _ Hinv) as Hm.
  destruct Hinv as (Hle & Hbest).
  assert (Hkeep : Inv i (S j) (m, a, b) \/ i <> j).
  { destruct (decide (i = j)) as [<- | Hne]; [left | right; exact Hne].
    split.
    - intros p q x Hoff [Hlt|[-> Hq]] Hx.
      + eapply Hle; [exact Hoff | left; exact Hlt | exact Hx].
      + eapply Hle; [exact Hoff | right; split; [reflexivity|] | exact Hx].
        destruct Hoff as (_ & _ & Hpq). lia.
    - destruct Hbest as [H|(Hoff & Hbef & Hrest)]; [left; exact H|].
      right. split; [exact Hoff|]. split; [|exact Hrest].
      destruct Hbef as [H|[-> H]]; [left; exact H | right; split; [reflexivity | lia]]. }
  destruct (decide (i ≠ j)) as [Hne|Heq].
  - destruct (square_entry n d i j d_square Hi) as [x Hx]; [lia|].
    rewrite (idx2_entry _ _ _ _ Hx). simpl.
    assert (Hxn : is_nan x = false).
    { eapply d_noNaN; [|exact Hx]. split; [|split]; lia. }
    destruct (lt x m) eqn:Hlt.
    + eexists. split; [reflexivity|]. split.
      * intros p q y Hoff [Hp|[-> Hq]] Hy.
        -- apply lt_le. eapply lt_le_trans; [exact Hlt|].
           eapply Hle; [exact Hoff | left; exact Hp | exact Hy].
        -- destruct (decide (q = j)) as [-> | Hqj].
           ++ rewrite Hx in Hy. injection Hy as <-. apply le_refl, Hxn.
           ++ apply lt_le. eapply lt_le_trans; [exact Hlt|].
              eapply Hle; [exact Hoff | right; split; [reflexivity | lia] | exact Hy].
      * right. split; [split; [|split]; lia|]. split; [right; split; [reflexivity | lia]|].
        split; [exact Hx|].
        intros p q y Hoff Hbef Hy. eapply lt_le_trans; [exact Hlt|].
        eapply Hle; eassumption.
    + eexists. split; [reflexivity|]. split.
      * intros p q y Hoff [Hp|[-> Hq]] Hy.
        -- eapply Hle; [exact Hoff | left; exact Hp | exact Hy].
        -- destruct (decide (q = j)) as [-> | Hqj].
           ++ rewrite Hx in Hy. injection Hy as <-. apply not_lt; assumption.
           ++ eapply Hle; [exact Hoff | right; split; [reflexivity | lia] | exact Hy].
      * destruct Hbest as [H|(Hoff & Hbef & Hrest)]; [left; exact H|].
        right. split; [exact Hoff|]. split; [|exact Hrest].
        destruct Hbef as [H|[-> H]]; [left; exact H | right; split; [reflexivity | lia]].
  - destruct Hkeep as [Hkeep|Hne]; [|tauto].
    eexists. split; [reflexivity | exact Hkeep].
Qed.

Lemma extremeInv_next_row (i : nat) (st : float * nat * nat) :
  Inv i n st -> Inv (S i) 0 st.
Proof.
  assert (Hb : forall p q, q < n -> before p q i n -> before p q (S i) 0).
  { intros p q Hq [H|[-> H]]; left; lia. }
  destruct st as [[m a] b]. intros (Hle & Hbest). split.
  - intros p q x Hoff [H|[_ H]] Hx; [|lia].
    eapply Hle; [exact Hoff | | exact Hx].
    destruct Hoff as (Hp & Hq & _).
    destruct (decide (p = i)) as [-> | Hpi]; [right; auto | left; lia].
  - destruct Hbest as [H|(Hoff & Hbef & Hrest)]; [left; exact H|].
    right. split; [exact Hoff|]. split; [|exact Hrest].
    apply Hb; [apply Hoff | exact Hbef].
Qed.

(** The loops return a state that has seen every cell. *)
Lemma extreme_run :
  exists st, extreme lt init d = Ok st /\ Inv n 0 st.
Proof.
  unfold extreme. destruct d_square as (HN & _). rewrite HN.
  apply (forLoop_inv (fun i st => Inv i 0 st)); [lia | |].
  - split; [|left; auto]. intros p q x _ [H|[_ H]]; lia.
  - intros i st Hi Hinv.
    destruct (extreme_inner i st) as (st' & Hrun & Hinv'); [lia | exact Hinv |].
    exists st'. split; [exact Hrun | apply extremeInv_next_row, Hinv'].
Qed.

(** When some off-diagonal entry is beyond the initial value, the cell
    returned is the first one to hold the extreme entry. *)
Lemma extreme_found :
  (exists p q x, offDiagonal n p q /\ entry (Matrix d) p q = Some x /\ lt x init = true) ->
  exists m i j,
    extreme lt init d = Ok (m, i, j) /\ offDiagonal n i j /\
    entry (Matrix d) i j = Some m /\
    (forall p q x, offDiagonal n p q -> entry (Matrix d) p q = Some x -> le m x = true) /\
    (forall p q x, offDiagonal n p q -> before p q i j -> entry (Matrix d) p q = Some x ->
       lt m x = true).
Proof.
  intros (p0 & q0 & x0 & Hoff0 & Hx0 & Hlt0).
  destruct extreme_run as ([[m i] j] & Hrun & Hle & Hbest).
  assert (Hall : forall p q x, offDiagonal n p q -> entry (Matrix d) p q = Some x ->
                   le m x = true).
  { intros p q x Hoff Hx. eapply Hle; [exact Hoff | left; apply Hoff | exact Hx]. }
  exists m, i, j. split; [exact Hrun|].
  destruct Hbest as [(-> & _ & _)|(Hoff & _ & Hm & Hfirst)].
  - exfalso. eapply lt_not_le; [exact Hlt0|]. eapply Hall; eassumption.
  - auto.
Qed.

(** Whatever the entries are next to the initial value, the value returned
    is not beyond any off-diagonal entry. *)
Lemma extreme_bound :
  exists m i j,
    extreme lt init d = Ok (m, i, j) /\
    forall p q x, offDiagonal n p q -> entry (Matrix d) p q = Some x -> le m x = true.
Proof.
  destruct extreme_run as ([[m i] j] & Hrun & Hle & _).
  exists m, i, j. split; [exact Hrun|].
  intros p q x Hoff Hx. eapply Hle; [exact Hoff | left; apply Hoff | exact Hx].
Qed.
End Extreme.

(** The loops of [Min] and [Max] on a matrix without NaN, as long as some
    entry is below, respectively above, the value they start from. *)
Lemma Min_found (n : nat) (d : DistMat) :
  square n d -> noNaN n d ->
  (exists p q x, offDiagonal n p q /\ entry (Matrix d) p q = Some x /\
     (x <? MaxFloat64)%float = true) ->
  MinContract n d.
Proof.
  intros Hsq Hnan Hex. unfold MinContract. rewrite Min_extreme.
  apply (extreme_found (fun x y => (x <? y)%float) (fun x y => (x <=? y)%float) MaxFloat64);
    try assumption.
  - apply float_leb_refl.
  - apply float_ltb_leb.
  - apply float_ltb_leb_trans.
  - apply float_not_ltb.
  - apply float_ltb_not_leb.
  - reflexivity.
Qed.

Lemma Max_found (n : nat) (d : DistMat) :
  square n d -> noNaN n d ->
  (exists p q x, offDiagonal n p q /\ entry (Matrix d) p q = Some x /\
     (- MaxFloat64 <? x)%float = true) ->
  MaxContract n d.
Proof.
  intros Hsq Hnan Hex. unfold MaxContract. rewrite Max_extreme.
  apply (extreme_found (fun x y => (y <? x)%float) (fun x y => (y <=? x)%float)
           (- MaxFloat64)%float); try assumption.
  - apply float_leb_refl.
  - intros x y. apply float_ltb_leb.
  - intros x y z H1 H2. eapply float_leb_ltb_trans; eassumption.
  - intros x y Hx Hy. apply float_not_ltb; assumption.
  - intros x y. apply float_ltb_not_leb.
  - reflexivity.
Qed.

(** The bound that [Min] returns, and the one that [Max] returns, whether
    or not an entry is beyond the value they start from. *)
Lemma Min_bound (n : nat) (d : DistMat) :
  square n d -> noNaN n d ->
  exists lo i j,
    Min d = Ok (lo, i, j) /\
    forall p q x, offDiagonal n p q -> entry (Matrix d) p q = Some x ->
      (lo <=? x)%float = true.
Proof.
  intros Hsq Hnan. rewrite Min_extreme.
  apply (extreme_bound (fun x y => (x <? y)%float) (fun x y => (x <=? y)%float) MaxFloat64);
    try assumption.
  - apply float_leb_refl.
  - apply float_ltb_leb.
  - apply float_ltb_leb_trans.
  - apply float_not_ltb.
  - reflexivity.
Qed.

Lemma Max_bound (n : nat) (d : DistMat) :
  square n d -> noNaN n d ->
  exists hi i j,
    Max d = Ok (hi, i, j) /\
    forall p q x, offDiagonal n p q -> entry (Matrix d) p q = Some x ->
      (x <=? hi)%float = true.
Proof.
  intros Hsq Hnan. rewrite Max_extreme.
  apply (extreme_bound (fun x y => (y <? x)%float) (fun x y => (y <=? x)%float)
           (- MaxFloat64)%float); try assumption.
  - apply float_leb_refl.
  - intros x y. apply float_ltb_leb.
  - intros x y z H1 H2. eapply float_leb_ltb_trans; eassumption.
  - intros x y Hx Hy. apply float_not_ltb; assumption.
  - reflexivity.
Qed.

Lemma zeros_square (n : nat) : square n (zeros n).
Proof.
  split; [apply length_replicate|]. split; [apply length_replicate|].
  apply Forall_replicate. apply length_replicate.
Qed.

Lemma threeTaxa_square : square 3 threeTaxa.
Proof. split; [reflexivity | split; [reflexivity | repeat constructor]]. Qed.

Lemma farApart_square : square 2 farApart.
Proof. split; [reflexivity | split; [reflexivity | repeat constructor]]. Qed.

Lemma halfKnown_square : square 2 halfKnown.
Proof. split; [reflexivity | split; [reflexivity | repeat constructor]]. Qed.

(** C4, as amended.  On an n by n matrix, n >= 2, none of whose off-diagonal
    entries is NaN: when some off-diagonal entry is below [MaxFloat64], [Min]
    returns the smallest off-diagonal entry and the first off-diagonal cell,
    in row-major order, that holds it; when some off-diagonal entry is above
    [-MaxFloat64], [Max] does the same for the largest; and, whether or not
    there are such entries, [Min] and [Max] return and every off-diagonal
    entry lies between the two values returned. *)
Theorem Min_Max_extrema (n : nat) (d : DistMat) :
  square n d -> 2 <= n -> noNaN n d ->
  ((exists p q x, offDiagonal n p q /\ entry (Matrix d) p q = Some x /\
      (x <? MaxFloat64)%float = true) ->
   MinContract n d) /\
  ((exists p q x, offDiagonal n p q /\ entry (Matrix d) p q = Some x /\
      (- MaxFloat64 <? x)%float = true) ->
   MaxContract n d) /\
  (exists lo i j hi i' j',
     Min d = Ok (lo, i, j) /\ Max d = Ok (hi, i', j') /\
     forall p q x, offDiagonal n p q -> entry (Matrix d) p q = Some x ->
       (lo <=? x)%float = true /\ (x <=? hi)%float = true).
Proof.
  intros Hsq _ Hnan.
  split; [apply Min_found; assumption|]. split; [apply Max_found; assumption|].
  destruct (Min_bound n d Hsq Hnan) as (lo & i & j & Elo & Hlo).
  destruct (Max_bound n d Hsq Hnan) as (hi & i' & j' & Ehi & Hhi).
  exists lo, i, j, hi, i', j'. split; [exact Elo|]. split; [exact Ehi|].
  intros p q x Hoff Hx. split; [eapply Hlo | eapply Hhi]; eassumption.
Qed.

(** On [threeTaxa] both contracts hold.  On [farApart], where no entry is
    below [MaxFloat64], the contract of [Max] holds and the entries still lie
    between the two values returned, [MaxFloat64] and [infinity]. *)
Lemma Min_Max_extrema_witness :
  (Min threeTaxa = Ok (1%float, 0, 1) /\ Max threeTaxa = Ok (7%float, 2, 1) /\
   MinContract 3 threeTaxa /\ MaxContract 3 threeTaxa) /\
  (MaxContract 2 farApart /\
   exists lo i j hi i' j',
     Min farApart = Ok (lo, i, j) /\ Max farApart = Ok (hi, i', j') /\
     forall p q x, offDiagonal 2 p q -> entry (Matrix farApart) p q = Some x ->
       (lo <=? x)%float = true /\ (x <=? hi)%float = true).
Proof.
  assert (Hoff : forall n, 2 <= n -> offDiagonal n 0 1) by (intros n Hn; repeat split; lia).
  split.
  - split; [reflexivity|]. split; [reflexivity|].
    assert (Hnan : noNaN 3 threeTaxa).
    { intros p q x (Hp & Hq & _) Hx.
      destruct p as [|[|[|p]]]; try lia; destruct q as [|[|[|q]]]; try lia;
        injection Hx as <-; reflexivity. }
    destruct (Min_Max_extrema 3 threeTaxa threeTaxa_square ltac:(lia) Hnan)
      as (Hmin & Hmax & _).
    split; [apply Hmin | apply Hmax];
      exists 0, 1, 1%float; (split; [apply Hoff; lia | split; reflexivity]).
  - assert (Hnan : noNaN 2 farApart).
    { intros p q x (Hp & Hq & _) Hx.
      destruct p as [|[|p]]; try lia; destruct q as [|[|q]]; try lia;
        injection Hx as <-; reflexivity. }
    destruct (Min_Max_extrema 2 farApart farApart_square ltac:(lia) Hnan)
      as (_ & Hmax & Hbounds).
    split; [|exact Hbounds].
    apply Hmax. exists 0, 1, infinity. split; [apply Hoff; lia | split; reflexivity].
Defined.

(** C4 fails as it is stated.  With every off-diagonal entry infinite, [Min]
    returns [MaxFloat64] and the cell (0, 0), on the diagonal, whose entry is
    [0]; with a NaN off the diagonal, the value returned is no bound of the
    entries. *)
Lemma Min_sentinel_returned :
  square 2 farApart /\ Min farApart = Ok (MaxFloat64, 0, 0) /\ ~ MinContract 2 farApart /\
  square 2 halfKnown /\ Min halfKnown = Ok (1%float, 1, 0) /\ ~ MinContract 2 halfKnown.
Proof.
  split; [apply farApart_square|]. split; [reflexivity|]. split.
  { intros (m & i & j & Hrun & (_ & _ & Hne) & _).
    change (Min farApart) with (Ok (A := float * nat * nat) (MaxFloat64, 0, 0)) in Hrun.
    injection Hrun as _ <- <-. apply Hne. reflexivity. }
  split; [apply halfKnown_square|]. split; [reflexivity|].
  intros (m & i & j & Hrun & _ & _ & Hle & _).
  change (Min halfKnown) with (Ok (A := float * nat * nat) (1%float, 1, 0)) in Hrun.
  injection Hrun as <- _ _.
  specialize (Hle 0 1 nan). discriminate Hle; [repeat split; lia | reflexivity].
Qed.

(** ** Calls outside the contract *)




(** ** Witnesses of the editing operations *)


Lemma twoOfThree_stored : stored 2 twoOfThree.
Proof.
  split; [reflexivity|]. split; [reflexivity|]. split.
  - repeat constructor; simpl; lia.
  - apply (bool_decide_unpack _). reflexivity.
Qed.


(** C7 fails as it is stated.  After [Delete(2)] the rows keep the capacity
    3.  In [d.Append("x", d.Matrix[1])], [append(data, 0.0)] then writes
    behind the second row, in its array, and [data] is that array from then
    on; the loop extends the second row by [data[1]], 5, in the same cell:
    the row of the new taxon is [4 5 5], its last entry 5 and not 0. *)
Lemma Append_shared_row :
  stored 2 twoOfThree /\ inStore (arrays twoOfThree) secondRow /\
  (forall room, exists h',
     Append room "x" secondRow twoOfThree = Ok h' /\
     DistMatOf h' = {| Matrix := [[1; 2; 4]; [4; 5; 5]; [4; 5; 5]]%float;
                       Names := ["a"; "b"; "x"]%string |}) /\
  ~ (exists room, AppendExtends room "x" secondRow twoOfThree).
Proof.
  split; [apply twoOfThree_stored|]. split; [split; simpl; lia|]. split.
  - intros room. eexists. split; reflexivity.
  - intros (room & h' & Hrun & Hview).
    vm_compute in Hrun. injection Hrun as <-.
    apply (f_equal (fun d => match entry (Matrix d) 2 2 with
                             | Some x => (x =? 0)%float
                             | None => false
                             end)) in Hview.
    vm_compute in Hview. discriminate Hview.
Qed.

Lemma Delete_removes_witness :
  Delete 1 threeTaxa = Ok {| Matrix := [[0; 2]; [6; 0]]%float; Names := ["a"; "c"]%string |}.
Proof.
  exact (proj1 (Delete_removes 3 1 threeTaxa threeTaxa_square ltac:(lia))).
Defined.

Lemma DeletePair_removes_witness :
  DeletePair 2 0 threeTaxa = Ok {| Matrix := [[0%float]]; Names := ["b"]%string |}.
Proof.
  exact (proj1 (DeletePair_removes 3 2 0 threeTaxa threeTaxa_square
                  ltac:(lia) ltac:(lia) ltac:(lia))).
Defined.

Lemma MakeSymmetrical_averages_witness :
  exists d', MakeSymmetrical threeTaxa = Ok d' /\ square 3 d' /\
    entry (Matrix d') 0 2 = Some 4%float /\ entry (Matrix d') 2 0 = Some 4%float.
Proof.
  destruct (MakeSymmetrical_averages 3 threeTaxa threeTaxa_square)
    as (d' & Hrun & Hsq & _ & Hoff & _).
  exists d'. split; [exact Hrun|]. split; [exact Hsq|].
  apply (Hoff 0 2 2%float 6%float); [lia | reflexivity | reflexivity].
Defined.

(** ** Reading lines *)

#[local] Arguments String.append !s1 s2 : simpl nomatch.

Lemma string_app_assoc (a b c : string) : (a +:+ b) +:+ c = a +:+ (b +:+ c).
Proof. induction a as [|x a IH]; simpl; [reflexivity | f_equal; exact IH]. Qed.

Lemma string_app_length (a b : string) :
  String.length (a +:+ b) = String.length a + String.length b.
Proof. induction a as [|x a IH]; simpl; [reflexivity | f_equal; exact IH]. Qed.

Lemma ReadString_eof (l : string) : noNewline l = true -> ReadString l = (l, EmptyString, true).
Proof.
  induction l as [|c l IH]; simpl; [reflexivity|].
  intros H. apply andb_true_iff in H. destruct H as (Hc & Hl).
  apply negb_true_iff in Hc. rewrite Hc, (IH Hl). reflexivity.
Qed.

Lemma ReadString_line (l rest : string) :
  noNewline l = true ->
  ReadString (l +:+ String LF rest) = (l +:+ String LF EmptyString, rest, false).
Proof.
  induction l as [|c l IH]; simpl; [reflexivity|].
  intros H. apply andb_true_iff in H. destruct H as (Hc & Hl).
  apply negb_true_iff in Hc. rewrite Hc, (IH Hl). reflexivity.
Qed.

(** A line read without error takes at least one byte off the input, and
    the end of the input leaves nothing of it. *)
Lemma ReadString_rest (r0 l rest : string) (err : bool) :
  ReadString r0 = (l, rest, err) ->
  if err then rest = EmptyString else String.length rest < String.length r0.
Proof.
  revert l rest err. induction r0 as [|c r0 IH]; simpl; intros l rest err H.
  - injection H as <- <- <-. reflexivity.
  - destruct (Ascii.eqb c LF).
    + injection H as <- <- <-. lia.
    + destruct (ReadString r0) as [[l0 rest0] err0] eqn:E.
      injection H as <- <- <-. specialize (IH _ _ _ eq_refl).
      destruct err0; [exact IH | lia].
Qed.

Lemma hasDigit_line (l : string) : hasDigit (l +:+ String LF EmptyString) = hasDigit l.
Proof.
  induction l as [|c l IH]; simpl; [reflexivity|]. rewrite IH. reflexivity.
Qed.

Lemma unlines_cons (l : string) (ls : list string) (tail : string) :
  unlines (l :: ls) +:+ tail = l +:+ String LF (unlines ls +:+ tail).
Proof. simpl. rewrite string_app_assoc. reflexivity. Qed.

Lemma unlines_length (ls : list string) (tail : string) :
  length ls <= String.length (unlines ls +:+ tail).
Proof.
  induction ls as [|l ls IH]; simpl; [lia|].
  rewrite string_app_assoc. simpl.
  rewrite string_app_length. simpl. lia.
Qed.

(** The loop that skips to the header ends because a line holds a digit or
    the input is at its end: the fuel of [seekHeader] never runs out. *)
Lemma skipToHeader_exit (fuel : nat) (l : string) (err : bool) (r0 : string) :
  String.length r0 < fuel ->
  let '(l', err', _) := skipToHeader fuel l err r0 in
  err' = true \/ hasDigit l' = true.
Proof.
  revert l err r0. induction fuel as [|f IH]; intros l err r0 Hf; [lia|].
  simpl. destruct err; simpl; [left; reflexivity|].
  destruct (hasDigit l) eqn:Hd; simpl; [right; exact Hd|].
  destruct (ReadString r0) as [[l1 r1] e1] eqn:E.
  pose proof (ReadString_rest _ _ _ _ E) as Hr. destruct e1.
  - subst r1. destruct f; simpl; left; reflexivity.
  - apply IH. lia.
Qed.

Lemma seekHeader_exit (r0 : string) :
  let '(l, err, _) := seekHeader r0 in err = true \/ hasDigit l = true.
Proof.
  unfold seekHeader. destruct (ReadString r0) as [[l1 r1] e1].
  apply skipToHeader_exit. lia.
Qed.

(** The filler lines are passed over: the search ends on the first line
    of [tail], when that line holds a digit or is the last of the input. *)
Lemma skipToHeader_filler (lines : list string) (tail h rest : string) (e : bool) :
  Forall filler lines ->
  ReadString tail = (h, rest, e) ->
  e = true \/ hasDigit h = true ->
  forall fuel l, length lines < fuel -> hasDigit l = false ->
    skipToHeader fuel l false (unlines lines +:+ tail) = (h, e, rest).
Proof.
  intros Hlines Htail Hexit. induction Hlines as [|l1 ls (Hnl & Hd) _ IH];
    intros fuel l Hf Hl; (destruct fuel as [|f]; [simpl in Hf; lia|]).
  - cbn [skipToHeader]. rewrite Hl. simpl. rewrite Htail.
    destruct f; simpl; [reflexivity|].
    destruct Hexit as [-> | ->]; [reflexivity|]. rewrite andb_false_r. reflexivity.
  - cbn [skipToHeader]. rewrite Hl, unlines_cons, (ReadString_line _ _ Hnl). simpl andb.
    cbv iota beta.
    apply IH; [simpl in Hf; lia | rewrite hasDigit_line; exact Hd].
Qed.

Lemma seekHeader_filler (lines : list string) (tail h rest : string) (e : bool) :
  Forall filler lines ->
  ReadString tail = (h, rest, e) ->
  e = true \/ hasDigit h = true ->
  seekHeader (unlines lines +:+ tail) = (h, e, rest).
Proof.
  intros Hlines Htail Hexit. unfold seekHeader.
  destruct Hlines as [|l1 ls (Hnl & Hd) Hls].
  - simpl unlines. change (EmptyString +:+ tail) with tail. rewrite Htail.
    cbn [skipToHeader].
    destruct Hexit as [-> | ->]; [reflexivity|]. rewrite andb_false_r. reflexivity.
  - rewrite unlines_cons, (ReadString_line _ _ Hnl).
    apply (skipToHeader_filler ls tail h rest e Hls Htail Hexit).
    + pose proof (unlines_length ls tail). lia.
    + rewrite hasDigit_line. exact Hd.
Qed.

(** ** The rows of a block *)

(** What holds before a loop and is kept by every turn that returns holds
    when the loop returns. *)
Lemma forRange_post {St : Type} (I : nat -> St -> Prop) (body : nat -> St -> result St)
    (cnt lo : nat) (s s' : St) :
  I lo s ->
  (forall i t t', lo <= i < lo + cnt -> I i t -> body i t = Ok t' -> I (S i) t') ->
  forRange lo cnt body s = Ok s' ->
  I (lo + cnt) s'.
Proof.
  revert lo s. induction cnt as [|c IH]; intros lo s H0 Hstep Hrun; simpl in Hrun.
  - injection Hrun as <-. rewrite Nat.add_0_r. exact H0.
  - destruct (body lo s) as [t| |] eqn:Hb; simpl in Hrun; try discriminate.
    replace (lo + S c) with (S lo + c) by lia.
    apply (IH (S lo) t); [| | exact Hrun].
    + apply (Hstep lo s t); [lia | exact H0 | exact Hb].
    + intros i u u' Hi. apply Hstep. lia.
Qed.

Lemma upd2_frame {A : Type} (m m' : list (list A)) (i j : nat) (x : A) :
  upd2 m i j x = Ok m' ->
  map length m' = map length m /\ forall p, p <> i -> m' !! p = m !! p.
Proof.
  unfold upd2, idx, upd. destruct (m !! i) as [row|] eqn:Hrow; simpl; [|discriminate].
  destruct (decide (j < length row)); simpl; [|discriminate].
  destruct (decide (i < length m)); simpl; [|discriminate].
  intros [= <-]. split.
  - rewrite list_fmap_insert, length_insert. apply list_insert_id.
    rewrite list_lookup_fmap, Hrow. reflexivity.
  - intros p Hp. apply list_lookup_insert_ne. auto.
Qed.

Section Rows.
Variable ParseFloat : string -> option float.

(** A row stored leaves the dimensions and the other rows as they were. *)
Lemma storeRow_frame (fields : list string) (i n : nat) (m m' : DistMat) :
  storeRow ParseFloat fields i n m = Ok m' ->
  length (Names m') = length (Names m) /\
  map length (Matrix m') = map length (Matrix m) /\
  forall p, p <> i -> Names m' !! p = Names m !! p /\ Matrix m' !! p = Matrix m !! p.
Proof.
  unfold storeRow. destruct (idx fields 0) as [name| |]; simpl; try discriminate.
  unfold upd at 1. destruct (decide (i < length (Names m))); simpl; [|discriminate].
  destruct (forLoop 1 (n + 1) _ (Matrix m)) as [mat| |] eqn:Hloop; simpl; try discriminate.
  intros [= <-]. simpl.
  apply (forRange_post
           (fun _ mat => map length mat = map length (Matrix m) /\
                         forall p, p <> i -> mat !! p = Matrix m !! p)) in Hloop.
  - destruct Hloop as (Hlen & Hrows). split; [apply length_insert|]. split; [exact Hlen|].
    intros p Hp. split; [apply list_lookup_insert_ne; auto | apply Hrows, Hp].
  - auto.
  - intros j t t' _ (Hlen & Hrows) Hbody.
    destruct (idx fields j) as [f| |]; simpl in Hbody; try discriminate.
    destruct (ParseFloat f) as [x|]; [|discriminate].
    apply upd2_frame in Hbody. destruct Hbody as (Hl & Hr).
    split; [congruence|]. intros p Hp. rewrite Hr by exact Hp. apply Hrows, Hp.
Qed.

(** The rows read leave the dimensions as they were, and touch no row
    before [i] nor from [i + cnt] on; a row that the end of the input cuts
    short is left untouched with those after it, and the input is used up. *)
Lemma scanRows_frame (cnt i n : nat) (m : DistMat) (r0 : string) (b : bool) (s' : Scanner) :
  scanRows ParseFloat cnt i n m r0 = Ok (b, s') ->
  exists m' k,
    mat s' = Some m' /\
    length (Names m') = length (Names m) /\
    map length (Matrix m') = map length (Matrix m) /\
    (forall p, p < i \/ i + k <= p ->
       Names m' !! p = Names m !! p /\ Matrix m' !! p = Matrix m !! p) /\
    (if b then k = cnt else k < cnt /\ r s' = EmptyString).
Proof.
  revert i m r0. induction cnt as [|c IH]; intros i m r0 Hrun; simpl in Hrun.
  - injection Hrun as <- <-. exists m, 0. simpl. auto 6.
  - destruct (ReadString r0) as [[l r1] err] eqn:Hread.
    pose proof (ReadString_rest _ _ _ _ Hread) as Hrest. destruct err.
    + injection Hrun as <- <-. exists m, 0. simpl. split; [reflexivity|].
      split; [reflexivity|]. split; [reflexivity|]. split; [auto|]. split; [lia | exact Hrest].
    + destruct (storeRow ParseFloat (Fields l) i n m) as [m1| |] eqn:Hrow;
        simpl in Hrun; try discriminate.
      apply storeRow_frame in Hrow. destruct Hrow as (HN1 & HM1 & Hf1).
      destruct (IH _ _ _ Hrun) as (m' & k & Hmat & HN & HM & Hf & Hk).
      exists m', (S k). split; [exact Hmat|]. split; [congruence|]. split; [congruence|].
      split.
      * intros p Hp. destruct (Hf p) as (E1 & E2); [lia|].
        destruct (Hf1 p) as (E3 & E4); [lia|]. split; congruence.
      * destruct b; [lia|]. split; [lia | apply Hk].
Qed.

(** Reading [c + c'] rows is reading [c] rows, then [c'] more. *)
Lemma scanRows_more (c c' i n : nat) (m m1 : DistMat) (r0 r1 : string) :
  scanRows ParseFloat c i n m r0 = Ok (true, {| r := r1; mat := Some m1 |}) ->
  scanRows ParseFloat (c + c') i n m r0 = scanRows ParseFloat c' (i + c) n m1 r1.
Proof.
  revert i m r0. induction c as [|c IH]; intros i m r0 Hrun; simpl in Hrun |- *.
  - injection Hrun as <- <-. rewrite Nat.add_0_r. reflexivity.
  - destruct (ReadString r0) as [[l r2] err]. destruct err; [discriminate|].
    destruct (storeRow ParseFloat (Fields l) i n m) as [m2| |]; simpl in Hrun |- *;
      try discriminate.
    rewrite (IH _ _ _ Hrun). f_equal. lia.
Qed.
End Rows.

Lemma map_length_eq_square (n : nat) (m m' : DistMat) :
  length (Names m') = length (Names m) ->
  map length (Matrix m') = map length (Matrix m) ->
  square n m -> square n m'.
Proof.
  intros HN HM (Hn & Hm & Hrows).
  destruct (map_length_square n _ _ HM Hm Hrows) as (H1 & H2).
  split; [congruence|]. split; assumption.
Qed.

(** ** Scan *)

Lemma zeros_last_row (k : nat) :
  Names (zeros (S k)) !! k = Some EmptyString /\
  Matrix (zeros (S k)) !! k = Some (replicate (S k) 0%float).
Proof. unfold zeros. cbn [Names Matrix]. split; apply lookup_replicate_2; lia. Qed.

(** C1 fails as it is stated.  On the stream of the two lines [0] and [1],
    whatever [ParseFloat] is: the first [Scan] succeeds and holds the empty
    matrix; the second returns false, and the matrix held is then the 1 by 1
    matrix allocated for the block that the end of the stream cut short. *)
Lemma Scan_failure_replaces_matrix :
  ~ (exists ParseFloat, HeldMatrixKept ParseFloat twoHeaders).
Proof.
  intros (pf & H).
  specialize (H {| r := unlines ["1"]%string; mat := Some (zeros 0) |}
                {| r := EmptyString; mat := Some (zeros 1) |} eq_refl eq_refl).
  discriminate H.
Qed.

(** C3: the row of the failing input holds a name and no distance; for
    every [ParseFloat], [Scan] ends in the run-time panic of [fields[1]],
    an index out of range, not in the fatal error of a field that cannot be
    read. *)
Theorem Scan_short_row_panics (ParseFloat : string -> option float) :
  Scan ParseFloat (NewScanner nameOnly) = @Panic (bool * Scanner).
Proof. reflexivity. Qed.

(** C10.  Let the stream start with lines that hold no digit, each ended by
    a newline, and let [last], its final line, not be ended by one.  When
    [last] is where the header would be, [Scan] returns false and the matrix
    held is as before, whatever [last] holds.  When a header for k+1 taxa
    and k rows read without error come before it, so that [last] is where
    the last row would be, [Scan] returns false as well: the whole stream is
    read, and in the matrix held the last row is still zero and the last
    name empty. *)
Theorem Scan_unterminated_line (ParseFloat : string -> option float)
    (held : option DistMat) (lines : list string) (last : string) :
  Forall filler lines ->
  noNewline last = true ->
  Scan ParseFloat {| r := unlines lines +:+ last; mat := held |}
    = Ok (false, {| r := EmptyString; mat := held |})
  /\ forall header rows k m,
       noNewline header = true -> hasDigit header = true ->
       Atoi (TrimRight (header +:+ String LF EmptyString)) = Some (Z.of_nat (S k)) ->
       scanRows ParseFloat k 0 (S k) (zeros (S k)) rows
         = Ok (true, {| r := last; mat := Some m |}) ->
       Scan ParseFloat {| r := unlines lines +:+ (header +:+ String LF rows); mat := held |}
         = Ok (false, {| r := EmptyString; mat := Some m |})
       /\ Names m !! k = Some EmptyString
       /\ Matrix m !! k = Some (replicate (S k) 0%float).
Proof.
  intros Hlines Hlast. split.
  - unfold Scan. simpl.
    rewrite (seekHeader_filler lines last last EmptyString true Hlines
               (ReadString_eof _ Hlast)) by auto.
    reflexivity.
  - intros header rows k m Hnl Hd Hn Hrows. split.
    + unfold Scan. simpl.
      rewrite (seekHeader_filler lines _ _ rows false Hlines (ReadString_line _ _ Hnl))
        by (right; rewrite hasDigit_line; exact Hd).
      rewrite Hn. unfold NewDistMat.
      destruct (decide (Z.of_nat (S k) < 0)%Z); [lia|]. simpl.
      rewrite Nat2Z.id. replace (S k) with (k + 1) at 1 by lia.
      rewrite (scanRows_more _ _ _ _ _ _ _ _ _ Hrows). simpl.
      rewrite (ReadString_eof _ Hlast). reflexivity.
    + apply scanRows_frame in Hrows.
      destruct Hrows as (m' & k' & Hmat & _ & _ & Hf & ->).
      simpl in Hmat. injection Hmat as <-.
      destruct (Hf k) as (E1 & E2); [lia|].
      destruct (zeros_last_row k) as (Z1 & Z2). split; congruence.
Qed.

Lemma Scan_unterminated_line_witness :
  Scan (fun _ => Some 1%float)
    {| r := unlines ["taxa"; "2"; "a 1 1"]%string +:+ "b 1 1"; mat := None |}
  = Ok (false, {| r := EmptyString;
                  mat := Some {| Matrix := [[1; 1]; [0; 0]]%float;
                                 Names := ["a"; ""]%string |} |}).
Proof.
  refine (proj1 (proj2 (Scan_unterminated_line (fun _ => Some 1%float) None
                          ["taxa"]%string "b 1 1" _ eq_refl)
                   "2"%string (unlines ["a 1 1"]%string +:+ "b 1 1") 1 _
                   eq_refl eq_refl eq_refl eq_refl)).
  repeat constructor.
Defined.

(** ** The editing operations in range *)

Lemma removeAt_rows (n k : nat) (M : list (list float)) :
  k < n -> Forall (fun row => length row = n) M ->
  Forall (fun row => length row = n - 1) (map (removeAt k) (removeAt k M)).
Proof.
  intros Hk Hrows. apply Forall_fmap. apply Forall_forall. intros row Hin. simpl.
  apply removeAt_elem_of in Hin. rewrite Forall_forall in Hrows.
  rewrite removeAt_length; rewrite (Hrows _ Hin); lia.
Qed.

Lemma removeAt_rows_fixed (n k : nat) (M : list (list float)) :
  k < n -> Forall (fun row => length row = n) M ->
  map (fun row => take (n - 1) (keepIf (isNot (Z.of_nat k)) row)) M = map (removeAt k) M.
Proof.
  intros Hk Hrows. apply list_eq. intros i. rewrite !list_lookup_fmap.
  destruct (M !! i) as [row|] eqn:Hrow; [|reflexivity]. simpl.
  rewrite keepIf_isNot, take_ge; [reflexivity|].
  rewrite removeAt_length; rewrite (Forall_lookup_1 _ _ _ _ Hrows Hrow); lia.
Qed.

Lemma Delete_at (n k : nat) (d : DistMat) :
  square n d -> k < n ->
  Delete (Z.of_nat k) d
  = Ok {| Matrix := map (removeAt k) (removeAt k (Matrix d));
          Names := removeAt k (Names d) |}
  /\ square (n - 1) {| Matrix := map (removeAt k) (removeAt k (Matrix d));
                       Names := removeAt k (Names d) |}.
Proof.
  intros (HN & HM & Hrows) Hk. split.
  - rewrite (Delete_run _ n) by (assumption || lia).
    rewrite !keepIf_isNot. f_equal. f_equal.
    rewrite take_ge by (rewrite length_map, removeAt_length; lia).
    apply removeAt_rows_fixed; [exact Hk|].
    apply Forall_forall. intros row Hin. apply removeAt_elem_of in Hin.
    rewrite Forall_forall in Hrows. apply Hrows, Hin.
  - split; [|split]; cbn [Matrix Names].
    + rewrite removeAt_length; lia.
    + rewrite length_map, removeAt_length; lia.
    + apply removeAt_rows; assumption.
Qed.

Lemma DeletePair_at (t1 t2 : nat) (d : DistMat) :
  t1 <> t2 ->
  DeletePair (Z.of_nat t1) (Z.of_nat t2) d
  = Ok {| Matrix := map (removePair t1 t2) (removePair t1 t2 (Matrix d));
          Names := removePair t1 t2 (Names d) |}.
Proof.
  intros H12. rewrite DeletePair_run. rewrite !(keepIf_pair t1 t2) by assumption.
  f_equal. f_equal. apply map_ext. intros row. apply (keepIf_pair t1 t2), H12.
Qed.

(** ** How the editing operations compose *)


Lemma removeAt_fmap {A B : Type} (f : A -> B) (k : nat) (l : list A) :
  removeAt k (map f l) = map f (removeAt k l).
Proof. unfold removeAt. rewrite map_app, fmap_take, fmap_drop. reflexivity. Qed.



(** [DeletePair] does what two calls of [Delete] do, the larger index
    first; the order of its two arguments does not matter. *)
Theorem DeletePair_two_Deletes (n t1 t2 : nat) (d : DistMat) :
  square n d -> t1 < n -> t2 < n -> t1 <> t2 ->
  DeletePair (Z.of_nat t1) (Z.of_nat t2) d
    = (d1 ← Delete (Z.of_nat (Nat.max t1 t2)) d; Delete (Z.of_nat (Nat.min t1 t2)) d1)
  /\ DeletePair (Z.of_nat t2) (Z.of_nat t1) d = DeletePair (Z.of_nat t1) (Z.of_nat t2) d.
Proof.
  intros Hsq H1 H2 H12. split.
  - destruct (Delete_at n (Nat.max t1 t2) d Hsq ltac:(lia)) as (Hd1 & Hsq1).
    rewrite (DeletePair_at t1 t2 d H12), Hd1, mbind_Ok.
    destruct (Delete_at (n - 1) (Nat.min t1 t2) _ Hsq1 ltac:(lia)) as (Hd2 & _).
    rewrite Hd2. cbn [Matrix Names]. f_equal. f_equal.
    rewrite removeAt_fmap, map_map. reflexivity.
  - rewrite !DeletePair_run. f_equal.
    assert (Hext : forall (A : Type) (l : list A),
              keepIf (fun i => isNot (Z.of_nat t2) i && isNot (Z.of_nat t1) i) l
              = keepIf (fun i => isNot (Z.of_nat t1) i && isNot (Z.of_nat t2) i) l).
    { intros A l. apply keepFrom_ext. intros i _. apply andb_comm. }
    rewrite !Hext. f_equal. apply map_ext. intros row. apply Hext.
Qed.

Lemma DeletePair_two_Deletes_witness :
  DeletePair 0 2 threeTaxa = (d1 ← Delete 2 threeTaxa; Delete 0 d1).
Proof.
  exact (proj1 (DeletePair_two_Deletes 3 0 2 threeTaxa threeTaxa_square
                  ltac:(lia) ltac:(lia) ltac:(lia))).
Defined.

(** [DeletePair] makes no check of its indices either: when the second one
    repeats the first or lies outside the matrix, the call returns
    normally and removes the first taxon only, as [Delete] does. *)
Theorem DeletePair_one_taxon (n t1 : nat) (t2 : Z) (d : DistMat) :
  square n d -> t1 < n ->
  (t2 = Z.of_nat t1 \/ t2 < 0 \/ Z.of_nat n <= t2)%Z ->
  DeletePair (Z.of_nat t1) t2 d = Delete (Z.of_nat t1) d.
Proof.
  intros Hsq H1 H2.
  destruct (Delete_at n t1 d Hsq H1) as (Hdel & _).
  rewrite Hdel, DeletePair_run. destruct Hsq as (HN & HM & Hrows).
  assert (Hext : forall (A : Type) (l : list A), length l = n ->
            keepIf (fun i => isNot (Z.of_nat t1) i && isNot t2 i) l = removeAt t1 l).
  { intros A l Hl. rewrite <- keepIf_isNot. apply keepFrom_ext. intros i Hi.
    simpl in Hi. destruct (isNot (Z.of_nat t1) i) eqn:E1; [|reflexivity].
    apply isNot_true in E1. simpl. apply isNot_true. lia. }
  f_equal. rewrite !Hext by assumption. f_equal.
  apply list_eq. intros i. rewrite !list_lookup_fmap.
  destruct (removeAt t1 (Matrix d) !! i) as [row|] eqn:Hrow; [|reflexivity]. simpl.
  f_equal. apply Hext.
  assert (Hin : row ∈ Matrix d).
  { eapply removeAt_elem_of, list_elem_of_lookup_2, Hrow. }
  rewrite Forall_forall in Hrows. apply Hrows, Hin.
Qed.

Lemma DeletePair_one_taxon_witness :
  DeletePair 1 7 threeTaxa = Delete 1 threeTaxa.
Proof.
  apply (DeletePair_one_taxon 3 1 7 threeTaxa threeTaxa_square); lia.
Defined.

(** With both indices outside the matrix, [DeletePair] returns the matrix
    as it was, where [Delete] with such an index cuts off the last row and
    column. *)
Theorem DeletePair_outside (n : nat) (t1 t2 : Z) (d : DistMat) :
  square n d ->
  (t1 < 0 \/ Z.of_nat n <= t1)%Z ->
  (t2 < 0 \/ Z.of_nat n <= t2)%Z ->
  DeletePair t1 t2 d = Ok d.
Proof.
  intros (HN & HM & Hrows) H1 H2. rewrite DeletePair_run.
  assert (Hext : forall (A : Type) (l : list A), length l = n ->
            keepIf (fun i => isNot t1 i && isNot t2 i) l = l).
  { intros A l Hl. apply keepFrom_all. intros i Hi. simpl in Hi.
    apply andb_true_iff. split; apply isNot_true; lia. }
  rewrite !Hext by assumption. destruct d as [M N]. cbn [Matrix Names] in *.
  f_equal. f_equal. rewrite <- (map_id M) at 2. apply list_eq. intros i.
  rewrite !list_lookup_fmap. destruct (M !! i) as [row|] eqn:Hrow; [|reflexivity].
  simpl. f_equal. apply Hext, (Forall_lookup_1 _ _ _ _ Hrows Hrow).
Qed.

Lemma DeletePair_outside_witness : DeletePair 3 (-1) threeTaxa = Ok threeTaxa.
Proof. apply (DeletePair_outside 3 3 (-1) threeTaxa threeTaxa_square); lia. Defined.

(** ** Edge cases of the matrix operations *)

(** On a matrix without rows, [Delete] ends in a run-time panic, whatever
    the index and the names: it reslices the matrix to the length -1. *)
Theorem Delete_empty_panics (taxon : Z) (names : list string) :
  Delete taxon {| Matrix := []; Names := names |} = Panic.
Proof.
  unfold Delete. cbn [Matrix Names]. rewrite compact_spec.
  cbv beta iota delta [mbind result_bind bind].
  rewrite sliceTo_ok by (rewrite length_app, keepIf_length; lia).
  reflexivity.
Qed.

(** With fewer than two names there is no off-diagonal cell: [Min] returns
    [MaxFloat64] and [Max] returns [-MaxFloat64], both with the indices
    (0, 0), and neither reads the matrix. *)
Theorem Min_Max_no_entries (d : DistMat) :
  length (Names d) <= 1 ->
  Min d = Ok (MaxFloat64, 0, 0) /\ Max d = Ok ((- MaxFloat64)%float, 0, 0).
Proof.
  intros H. unfold Min, Max.
  destruct (Names d) as [|a [|b l]]; simpl in H; [split; reflexivity ..| lia].
Qed.

Lemma Min_Max_no_entries_witness :
  Min {| Matrix := []; Names := ["a"]%string |} = Ok (MaxFloat64, 0, 0).
Proof.
  apply (Min_Max_no_entries {| Matrix := []; Names := ["a"]%string |}). simpl. lia.
Defined.

(** The earlier revision of [Delete] returns what the current one returns
    whenever there are as many names as rows. *)
Theorem DeleteByNames_Delete (taxon : Z) (d : DistMat) :
  length (Names d) = length (Matrix d) ->
  DeleteByNames taxon d = Delete taxon d.
Proof. intros H. unfold DeleteByNames, Delete. rewrite H. reflexivity. Qed.

Lemma DeleteByNames_Delete_witness :
  DeleteByNames 1 threeTaxa = Delete 1 threeTaxa.
Proof. exact (DeleteByNames_Delete 1 threeTaxa eq_refl). Defined.

(** ** Storing a row *)

(** A loop whose turns succeed up to the index [k], where the body fails,
    fails in the same way. *)
Lemma forRange_fails {St : Type} (I : nat -> St -> Prop) (body : nat -> St -> result St)
    (err : result St) (k cnt lo : nat) (s : St) :
  failed err ->
  lo <= k < lo + cnt ->
  I lo s ->
  (forall i t, lo <= i < k -> I i t -> exists t', body i t = Ok t' /\ I (S i) t') ->
  (forall t, I k t -> body k t = err) ->
  forRange lo cnt body s = err.
Proof.
  intros Herr. revert lo s. induction cnt as [|c IH]; intros lo s Hk H0 Hstep Hfail; [lia|].
  simpl. destruct (decide (lo = k)) as [-> | Hne].
  - rewrite (Hfail s H0). destruct err; [destruct Herr | reflexivity | reflexivity].
  - destruct (Hstep lo s) as (t & Hb & Ht); [lia | exact H0 |].
    rewrite Hb. cbv beta iota delta [mbind result_bind bind].
    apply IH; [lia | exact Ht | | exact Hfail].
    intros i u Hi. apply Hstep. lia.
Qed.

Lemma insert_take_drop_S {A : Type} (xs row : list A) (k : nat) (x : A) :
  xs !! k = Some x -> k < length row ->
  <[k:=x]> (take k xs ++ drop k row) = take (S k) xs ++ drop (S k) row.
Proof.
  intros Hx Hk. pose proof (lookup_lt_Some _ _ _ Hx) as Hlt.
  assert (Hlen : length (take k xs) = k) by (rewrite length_take; lia).
  destruct (lookup_lt_is_Some_2 row k Hk) as [y Hy].
  rewrite insert_app_r_alt by lia. rewrite Hlen, Nat.sub_diag.
  rewrite (drop_S row y k Hy), (take_S_r xs k x Hx). simpl.
  rewrite <- app_assoc. reflexivity.
Qed.

Section StoreRow.
Variable ParseFloat : string -> option float.
Variables (n i : nat) (m : DistMat) (row : list float).
Hypothesis i_name : i < length (Names m).
Hypothesis i_row : Matrix m !! i = Some row.
Hypothesis row_length : length row = n.

(** The turn [j] of the loop over the fields, when the field is there and
    is read as [x]. *)
Lemma storeRow_turn (toks : list string) (name tok : string) (x : float)
    (cur : list float) (j : nat) :
  1 <= j <= n ->
  toks !! (j - 1) = Some tok -> ParseFloat tok = Some x ->
  length cur = n ->
  (f ← idx (name :: toks) j;
   match ParseFloat f with
   | Some x => upd2 (<[i:=cur]> (Matrix m)) i (j - 1) x
   | None => Fatal (CantRead f)
   end) = Ok (<[i:=<[j - 1:=x]> cur]> (Matrix m)).
Proof.
  intros Hj Htok Hpf Hcur. pose proof (lookup_lt_Some _ _ _ i_row) as Hi.
  assert (Hf : (name :: toks) !! j = Some tok).
  { destruct j as [|j]; [lia|]. simpl in *. rewrite Nat.sub_0_r in Htok. exact Htok. }
  rewrite (idx_ok _ _ _ Hf), mbind_Ok, Hpf.
  assert (Hcur' : <[i:=cur]> (Matrix m) !! i = Some cur)
    by (apply list_lookup_insert_eq, Hi).
  rewrite (upd2_ok _ i (j - 1) cur x Hcur') by lia.
  rewrite list_insert_insert_eq. reflexivity.
Qed.

(** A row with its name and [n] fields that are read is stored. *)
Lemma storeRow_ok (name : string) (toks : list string) (xs : list float) :
  length xs = n ->
  Forall2 (fun tok x => ParseFloat tok = Some x) (take n toks) xs ->
  storeRow ParseFloat (name :: toks) i n m
  = Ok {| Matrix := <[i:=xs]> (Matrix m); Names := <[i:=name]> (Names m) |}.
Proof.
  intros Hxs Hall. unfold storeRow. change (idx (name :: toks) 0) with (Ok name).
  rewrite mbind_Ok, (upd_ok _ _ _ i_name), mbind_Ok.
  destruct (forLoop_inv
    (fun j mat => mat = <[i:=take (j - 1) xs ++ drop (j - 1) row]> (Matrix m))
    (fun j mat => f ← idx (name :: toks) j;
                  match ParseFloat f with
                  | Some x => upd2 mat i (j - 1) x
                  | None => Fatal (CantRead f)
                  end)
    1 (n + 1) (Matrix m)) as (mat & Hrun & Hinv).
  - lia.
  - simpl. symmetry. apply list_insert_id. rewrite drop_0. exact i_row.
  - intros j mat Hj ->.
    destruct (lookup_lt_is_Some_2 xs (j - 1)) as [x Hx]; [lia|].
    destruct (Forall2_lookup_r _ _ _ _ _ Hall Hx) as (tok & Htok & Hpf).
    apply lookup_take_Some in Htok. destruct Htok as (Htok & _).
    eexists. split.
    + apply (storeRow_turn toks name tok x); [lia | exact Htok | exact Hpf |].
      rewrite length_app, length_take, length_drop. lia.
    + rewrite insert_take_drop_S by (assumption || lia).
      replace (S j - 1) with (S (j - 1)) by lia. reflexivity.
  - rewrite Hrun, mbind_Ok, Hinv.
    replace (n + 1 - 1) with n by lia.
    rewrite take_ge, drop_ge, app_nil_r by lia. reflexivity.
Qed.

(** A row that stops short of its [n] fields, all that it holds being
    read, ends in the panic of the index that is out of range. *)
Lemma storeRow_short (fields : list string) :
  length fields <= n ->
  Forall (fun tok => is_Some (ParseFloat tok)) (tail fields) ->
  storeRow ParseFloat fields i n m = Panic.
Proof.
  intros Hlen Hall. unfold storeRow. destruct fields as [|name toks]; [reflexivity|].
  simpl in Hlen, Hall. change (idx (name :: toks) 0) with (Ok name).
  rewrite mbind_Ok, (upd_ok _ _ _ i_name), mbind_Ok. unfold forLoop.
  rewrite (forRange_fails
    (fun j mat => exists cur, mat = <[i:=cur]> (Matrix m) /\ length cur = n)
    _ Panic (S (length toks))); [reflexivity | exact I | lia | | |].
  - exists row. split; [symmetry; apply list_insert_id, i_row | exact row_length].
  - intros j mat Hj (cur & -> & Hcur).
    destruct (lookup_lt_is_Some_2 toks (j - 1)) as [tok Htok]; [lia|].
    destruct (Forall_lookup_1 _ _ _ _ Hall Htok) as [x Hpf].
    eexists. split.
    + apply (storeRow_turn toks name tok x); [lia | exact Htok | exact Hpf | exact Hcur].
    + eexists. split; [reflexivity|]. rewrite length_insert. exact Hcur.
  - intros mat _. unfold idx. simpl. rewrite lookup_ge_None_2 by lia. reflexivity.
Qed.

(** A row whose field [k] is the first that [ParseFloat] rejects ends in
    the fatal error that names the field. *)
Lemma storeRow_rejected (name : string) (toks : list string) (k : nat) (tok : string) :
  k < n ->
  toks !! k = Some tok ->
  ParseFloat tok = None ->
  Forall (fun tok => is_Some (ParseFloat tok)) (take k toks) ->
  storeRow ParseFloat (name :: toks) i n m = Fatal (CantRead tok).
Proof.
  intros Hk Htok Hnone Hall. unfold storeRow. change (idx (name :: toks) 0) with (Ok name).
  rewrite mbind_Ok, (upd_ok _ _ _ i_name), mbind_Ok. unfold forLoop.
  rewrite (forRange_fails
    (fun j mat => exists cur, mat = <[i:=cur]> (Matrix m) /\ length cur = n)
    _ (Fatal (CantRead tok)) (S k)); [reflexivity | exact I | lia | | |].
  - exists row. split; [symmetry; apply list_insert_id, i_row | exact row_length].
  - intros j mat Hj (cur & -> & Hcur).
    destruct (lookup_lt_is_Some_2 (take k toks) (j - 1)) as [t Ht].
    { rewrite length_take. apply lookup_lt_Some in Htok. lia. }
    destruct (Forall_lookup_1 _ _ _ _ Hall Ht) as [x Hpf].
    apply lookup_take_Some in Ht. destruct Ht as (Ht & _).
    eexists. split.
    + apply (storeRow_turn toks name t x); [lia | exact Ht | exact Hpf | exact Hcur].
    + eexists. split; [reflexivity|]. rewrite length_insert. exact Hcur.
  - intros mat _. rewrite (idx_ok _ (S k) tok) by exact Htok.
    rewrite mbind_Ok, Hnone. reflexivity.
Qed.
End StoreRow.

(** ** Blocks *)

Lemma square_insert_row (n i : nat) (m : DistMat) (name : string) (xs : list float) :
  square n m -> length xs = n ->
  square n {| Matrix := <[i:=xs]> (Matrix m); Names := <[i:=name]> (Names m) |}.
Proof.
  intros (HN & HM & Hrows) Hxs. split; [|split]; cbn [Matrix Names].
  - rewrite length_insert. exact HN.
  - rewrite length_insert. exact HM.
  - apply Forall_insert; assumption.
Qed.

Section Blocks.
Variable ParseFloat : string -> option float.
Variable n : nat.

(** Rows that are read fill the rows [i], [i + 1], ... of the matrix and
    leave the input that follows them. *)
Lemma scanRows_ok (ls : list string) (ps : list (string * list float)) (rest : string) :
  rowsRead ParseFloat n ls ps ->
  forall i m, square n m -> i + length ls <= n ->
    scanRows ParseFloat (length ls) i n m (unlines ls +:+ rest)
    = Ok (true,
          {| r := rest;
             mat := Some {| Matrix := take i (Matrix m) ++ map snd ps
                                        ++ drop (i + length ls) (Matrix m);
                            Names := take i (Names m) ++ map fst ps
                                       ++ drop (i + length ls) (Names m) |} |}).
Proof.
  induction 1 as [|l [name xs] ls ps (Hnl & toks & Hf & Hxs & Hall) _ IH];
    intros i m Hsq Hi.
  - simpl. rewrite Nat.add_0_r, !take_drop. destruct m; reflexivity.
  - cbn [length] in Hi |- *. cbn [scanRows fst snd] in *.
    rewrite unlines_cons, (ReadString_line _ _ Hnl). cbv iota beta.
    destruct Hsq as (HN & HM & Hrows).
    destruct (lookup_lt_is_Some_2 (Matrix m) i) as [row Hrow]; [lia|].
    rewrite Hf.
    rewrite (storeRow_ok ParseFloat n i m row ltac:(lia) Hrow
               (Forall_lookup_1 _ _ _ _ Hrows Hrow) name toks xs Hxs Hall).
    rewrite mbind_Ok.
    rewrite IH; [| apply square_insert_row; [repeat split; assumption | exact Hxs] | lia].
    cbn [Matrix Names]. f_equal. f_equal. f_equal. f_equal. f_equal.
    + rewrite take_S_insert by lia. rewrite drop_insert_lt by lia.
      replace (S i + length ls) with (i + S (length ls)) by lia.
      rewrite <- app_assoc. reflexivity.
    + rewrite take_S_insert by lia. rewrite drop_insert_lt by lia.
      replace (S i + length ls) with (i + S (length ls)) by lia.
      rewrite <- app_assoc. reflexivity.
Qed.

Lemma rowsRead_length (ls : list string) (ps : list (string * list float)) :
  rowsRead ParseFloat n ls ps -> length ps = length ls.
Proof. intros H. symmetry. eapply Forall2_length, H. Qed.

(** The header is found and read. *)
Lemma Scan_header (held : option DistMat) (lines : list string) (header body : string) :
  Forall filler lines -> headerFor n header ->
  Scan ParseFloat {| r := unlines lines +:+ (header +:+ String LF body); mat := held |}
  = scanRows ParseFloat n 0 n (zeros n) body.
Proof.
  intros Hlines (Hnl & Hd & Hn). unfold Scan. cbn [r].
  rewrite (seekHeader_filler lines _ _ body false Hlines (ReadString_line _ _ Hnl))
    by (right; rewrite hasDigit_line; exact Hd).
  rewrite Hn. unfold NewDistMat.
  destruct (decide (Z.of_nat n < 0)%Z); [lia|].
  rewrite mbind_Ok, Nat2Z.id. reflexivity.
Qed.

(** A well-formed block is read.  After any lines without a digit, a header
    line for n taxa and n rows that each hold a name and at least n fields,
    the first n of which [ParseFloat] reads: [Scan] returns true, the
    matrix held is made of the names and of the floats read, in the order
    of the rows, and the reader stands after the last row.  Fields beyond
    the n-th are ignored. *)
Theorem Scan_block (held : option DistMat) (lines : list string) (header : string)
    (ls : list string) (ps : list (string * list float)) (rest : string) :
  Forall filler lines ->
  headerFor n header ->
  length ls = n ->
  rowsRead ParseFloat n ls ps ->
  Scan ParseFloat
    {| r := unlines lines +:+ (header +:+ String LF (unlines ls +:+ rest)); mat := held |}
  = Ok (true, {| r := rest;
                 mat := Some {| Matrix := map snd ps; Names := map fst ps |} |}).
Proof.
  intros Hlines Hhead Hlen Hrows.
  rewrite (Scan_header held lines header _ Hlines Hhead).
  rewrite <- Hlen at 1. rewrite (scanRows_ok ls ps rest Hrows 0 (zeros n));
    [| apply zeros_square | lia].
  pose proof (zeros_square n) as (HN & HM & _).
  rewrite !drop_ge, !app_nil_r by lia. reflexivity.
Qed.

(** A row with too few fields.  When, after the header and k < n rows that
    are read, a line holds fewer than n + 1 fields, all of which after the
    name [ParseFloat] reads (a blank line holds none), [Scan] ends in a
    run-time panic. *)
Theorem Scan_short_row (held : option DistMat) (lines : list string) (header : string)
    (ls : list string) (ps : list (string * list float)) (short rest : string) :
  Forall filler lines ->
  headerFor n header ->
  length ls < n ->
  rowsRead ParseFloat n ls ps ->
  noNewline short = true ->
  length (Fields (short +:+ String LF EmptyString)) <= n ->
  Forall (fun tok => is_Some (ParseFloat tok))
         (tail (Fields (short +:+ String LF EmptyString))) ->
  Scan ParseFloat
    {| r := unlines lines +:+ (header +:+ String LF
                                 (unlines ls +:+ (short +:+ String LF rest)));
       mat := held |}
  = Panic.
Proof.
  intros Hlines Hhead Hlen Hrows Hnl Hfew Hall.
  rewrite (Scan_header held lines header _ Hlines Hhead).
  replace n with (length ls + S (n - length ls - 1)) at 1 by lia.
  pose proof (scanRows_ok ls ps (short +:+ String LF rest) Hrows 0 (zeros n)
                (zeros_square n) ltac:(lia)) as Hgood.
  rewrite (scanRows_more _ _ _ _ _ _ _ _ _ Hgood).
  cbn [scanRows]. rewrite (ReadString_line _ _ Hnl). cbv iota beta.
  pose proof (zeros_square n) as (HN & HM & Hzrows).
  pose proof (rowsRead_length _ _ Hrows) as Hps.
  set (m := {| Matrix := _; Names := _ |}).
  assert (Hsq : square n m).
  { unfold m. split; [|split]; cbn [Matrix Names].
    - rewrite !length_app, length_take, length_map, length_drop. lia.
    - rewrite !length_app, length_take, length_map, length_drop. lia.
    - apply Forall_app. split; [apply Forall_take, Hzrows|].
      apply Forall_app. split; [|apply Forall_drop, Hzrows].
      apply Forall_fmap. apply Forall_lookup_2. intros j p Hp.
      destruct (Forall2_lookup_r _ _ _ _ _ Hrows Hp) as (l & _ & _ & toks & _ & Hxs & _).
      exact Hxs. }
  destruct Hsq as (HN' & HM' & Hrows').
  destruct (lookup_lt_is_Some_2 (Matrix m) (0 + length ls)) as [row Hrow]; [lia|].
  rewrite (storeRow_short ParseFloat n (0 + length ls) m row);
    [reflexivity | lia | exact Hrow | exact (Forall_lookup_1 _ _ _ _ Hrows' Hrow)
     | exact Hfew | exact Hall].
Qed.

Lemma rowsRead_square (ls : list string) (ps : list (string * list float)) :
  rowsRead ParseFloat n ls ps -> length ls <= n ->
  square n {| Matrix := take 0 (Matrix (zeros n)) ++ map snd ps
                          ++ drop (0 + length ls) (Matrix (zeros n));
              Names := take 0 (Names (zeros n)) ++ map fst ps
                         ++ drop (0 + length ls) (Names (zeros n)) |}.
Proof.
  intros Hrows Hlen.
  pose proof (zeros_square n) as (HN & HM & Hzrows).
  pose proof (rowsRead_length _ _ Hrows) as Hps.
  split; [|split]; cbn [Matrix Names].
  - rewrite !length_app, length_take, length_map, length_drop. lia.
  - rewrite !length_app, length_take, length_map, length_drop. lia.
  - apply Forall_app. split; [apply Forall_take, Hzrows|].
    apply Forall_app. split; [|apply Forall_drop, Hzrows].
    apply Forall_fmap. apply Forall_lookup_2. intros j p Hp.
    destruct (Forall2_lookup_r _ _ _ _ _ Hrows Hp) as (l & _ & _ & toks & _ & Hxs & _).
    exact Hxs.
Qed.

(** A field that is no number.  When, after the header and k < n rows that
    are read, a row holds a field, among its first n, that [ParseFloat]
    rejects, those before it being read, [Scan] ends in the fatal error
    that names this field. *)
Theorem Scan_rejected_field (held : option DistMat) (lines : list string) (header : string)
    (ls : list string) (ps : list (string * list float)) (bad rest : string)
    (name : string) (toks : list string) (k : nat) (tok : string) :
  Forall filler lines ->
  headerFor n header ->
  length ls < n ->
  rowsRead ParseFloat n ls ps ->
  noNewline bad = true ->
  Fields (bad +:+ String LF EmptyString) = name :: toks ->
  k < n -> toks !! k = Some tok -> ParseFloat tok = None ->
  Forall (fun tok => is_Some (ParseFloat tok)) (take k toks) ->
  Scan ParseFloat
    {| r := unlines lines +:+ (header +:+ String LF
                                 (unlines ls +:+ (bad +:+ String LF rest)));
       mat := held |}
  = Fatal (CantRead tok).
Proof.
  intros Hlines Hhead Hlen Hrows Hnl Hf Hk Htok Hnone Hall.
  rewrite (Scan_header held lines header _ Hlines Hhead).
  replace n with (length ls + S (n - length ls - 1)) at 1 by lia.
  pose proof (scanRows_ok ls ps (bad +:+ String LF rest) Hrows 0 (zeros n)
                (zeros_square n) ltac:(lia)) as Hgood.
  rewrite (scanRows_more _ _ _ _ _ _ _ _ _ Hgood).
  cbn [scanRows]. rewrite (ReadString_line _ _ Hnl). cbv iota beta. rewrite Hf.
  destruct (rowsRead_square ls ps Hrows ltac:(lia)) as (HN' & HM' & Hrows').
  set (m := {| Matrix := _; Names := _ |}) in *.
  destruct (lookup_lt_is_Some_2 (Matrix m) (0 + length ls)) as [row Hrow]; [lia|].
  rewrite (storeRow_rejected ParseFloat n (0 + length ls) m row ltac:(lia) Hrow
             (Forall_lookup_1 _ _ _ _ Hrows' Hrow) name toks k tok Hk Htok Hnone Hall).
  reflexivity.
Qed.

(** A header that is no count.  The first line that holds a digit is taken
    as the header, whatever else it holds: when [Atoi] rejects it, [Scan]
    ends in the fatal error that quotes the line, trimmed; when it is a
    negative integer, [Scan] ends in the run-time panic of [make]. *)
Theorem Scan_malformed_header (held : option DistMat) (lines : list string)
    (header body : string) :
  Forall filler lines ->
  noNewline header = true ->
  hasDigit header = true ->
  match Atoi (TrimRight (header +:+ String LF EmptyString)) with
  | None =>
    Scan ParseFloat {| r := unlines lines +:+ (header +:+ String LF body); mat := held |}
    = Fatal (CantConvert (TrimRight (header +:+ String LF EmptyString)))
  | Some z =>
    (z < 0)%Z ->
    Scan ParseFloat {| r := unlines lines +:+ (header +:+ String LF body); mat := held |}
    = Panic
  end.
Proof.
  intros Hlines Hnl Hd. unfold Scan. cbn [r].
  rewrite (seekHeader_filler lines _ _ body false Hlines (ReadString_line _ _ Hnl))
    by (right; rewrite hasDigit_line; exact Hd).
  destruct (Atoi (TrimRight (header +:+ String LF EmptyString))) as [z|]; [|reflexivity].
  intros Hz. unfold NewDistMat. destruct (decide (z < 0)%Z); [reflexivity | lia].
Qed.
End Blocks.

(** ** Witnesses of the blocks *)

Lemma Scan_block_witness :
  Scan wholeNumber
    (NewScanner (unlines ["# two taxa"; "2"; "a 0 3 9"; "b 4 0"]%string +:+ "rest"))
  = Ok (true, {| r := "rest";
                 mat := Some {| Matrix := [[0; 3]; [4; 0]]%float;
                                Names := ["a"; "b"]%string |} |}).
Proof.
  refine (Scan_block wholeNumber 2 None ["# two taxa"]%string "2"
            ["a 0 3 9"; "b 4 0"]%string [("a", [0; 3]); ("b", [4; 0])]%string%float "rest"
            _ _ eq_refl _).
  - repeat constructor.
  - repeat split.
  - constructor; [|constructor; [|constructor]].
    + split; [reflexivity|]. exists ["0"; "3"; "9"]%string.
      split; [reflexivity|]. split; [reflexivity|]. repeat constructor.
    + split; [reflexivity|]. exists ["4"; "0"]%string.
      split; [reflexivity|]. split; [reflexivity|]. repeat constructor.
Defined.

Lemma Scan_short_row_witness :
  Scan wholeNumber (NewScanner (unlines ["2"; "a 0 3"; "b 4"; "c 1 1"]%string)) = Panic.
Proof.
  refine (Scan_short_row wholeNumber 2 None [] "2" ["a 0 3"]%string
            [("a", [0; 3])]%string%float "b 4" (unlines ["c 1 1"]%string)
            _ _ _ _ eq_refl _ _).
  - constructor.
  - repeat split.
  - simpl. lia.
  - constructor; [|constructor].
    split; [reflexivity|]. exists ["0"; "3"]%string.
    split; [reflexivity|]. split; [reflexivity|]. repeat constructor.
  - vm_compute. lia.
  - repeat constructor. exists 4%float. reflexivity.
Defined.

Lemma Scan_rejected_field_witness :
  Scan wholeNumber (NewScanner (unlines ["2"; "a 0 3"; "b 4 zero"]%string))
  = Fatal (CantRead "zero").
Proof.
  refine (Scan_rejected_field wholeNumber 2 None [] "2" ["a 0 3"]%string
            [("a", [0; 3])]%string%float "b 4 zero" EmptyString
            "b" ["4"; "zero"]%string 1 "zero" _ _ _ _ eq_refl eq_refl _ eq_refl eq_refl _).
  - constructor.
  - repeat split.
  - simpl. lia.
  - constructor; [|constructor].
    split; [reflexivity|]. exists ["0"; "3"]%string.
    split; [reflexivity|]. split; [reflexivity|]. repeat constructor.
  - lia.
  - repeat constructor. exists 4%float. reflexivity.
Defined.

Lemma Scan_malformed_header_witness :
  Scan wholeNumber (NewScanner (unlines ["taxa: 2"; "a 0 3"; "b 4 0"]%string))
  = Fatal (CantConvert "taxa: 2").
Proof.
  exact (Scan_malformed_header wholeNumber None [] "taxa: 2"
           (unlines ["a 0 3"; "b 4 0"]%string) (Forall_nil_2 _) eq_refl eq_refl).
Defined.

(** ** A block that the end of the stream cuts short *)

(** What [ReadString] has read: a line and its newline off the front of the
    input, or, at the end of the input, all of it, without a newline. *)
Lemma ReadString_inv (r0 l rest : string) (err : bool) :
  ReadString r0 = (l, rest, err) ->
  if err then noNewline r0 = true /\ l = r0 /\ rest = EmptyString
  else exists l0, noNewline l0 = true /\ l = l0 +:+ String LF EmptyString /\
                  r0 = l0 +:+ String LF rest.
Proof.
  revert l rest err. induction r0 as [|c r0 IH]; simpl; intros l rest err H.
  - injection H as <- <- <-. auto.
  - destruct (Ascii.eqb c LF) eqn:Hc.
    + injection H as <- <- <-. apply Ascii.eqb_eq in Hc. subst c.
      exists EmptyString. auto.
    + destruct (ReadString r0) as [[l1 r1] e1]. injection H as <- <- <-.
      specialize (IH _ _ _ eq_refl). destruct e1.
      * destruct IH as (Hnl & -> & ->). rewrite Hnl. auto.
      * destruct IH as (l0 & Hnl & -> & ->). exists (String c l0). simpl.
        rewrite Hc, Hnl. auto.
Qed.

Section RowsCut.
Variable ParseFloat : string -> option float.

(** The fields of a row, next to the [n] floats wanted: they are read, or
    there are too few of them, or one of them is rejected. *)
Lemma fields_read_or_not (n : nat) (toks : list string) :
  (exists xs, length xs = n /\
     Forall2 (fun tok x => ParseFloat tok = Some x) (take n toks) xs) \/
  (length toks < n /\ Forall (fun tok => is_Some (ParseFloat tok)) toks) \/
  (exists k tok, k < n /\ toks !! k = Some tok /\ ParseFloat tok = None /\
     Forall (fun tok => is_Some (ParseFloat tok)) (take k toks)).
Proof.
  revert n. induction toks as [|tok toks IH]; intros [|n].
  - left. exists []. split; [reflexivity | constructor].
  - right. left. split; [simpl; lia | constructor].
  - left. exists []. split; [reflexivity | constructor].
  - destruct (ParseFloat tok) as [x|] eqn:Hpf.
    + destruct (IH n) as [(xs & Hxs & Hall)|[(Hlen & Hall)|(k & t & Hk & Ht & Hnone & Hall)]].
      * left. exists (x :: xs). split; [simpl; lia|]. simpl. constructor; assumption.
      * right. left. split; [simpl; lia|]. constructor; [rewrite Hpf; eauto | exact Hall].
      * right. right. exists (S k), t. split; [lia|]. split; [exact Ht|].
        split; [exact Hnone|]. simpl. constructor; [rewrite Hpf; eauto | exact Hall].
    + right. right. exists 0, tok. split; [lia|]. split; [reflexivity|].
      split; [exact Hpf | constructor].
Qed.

(** A row is stored only when the line holds a name and [n] fields that
    are read. *)
Lemma storeRow_inv (fields : list string) (n i : nat) (m m' : DistMat) (row : list float) :
  i < length (Names m) -> Matrix m !! i = Some row -> length row = n ->
  storeRow ParseFloat fields i n m = Ok m' ->
  exists name toks xs,
    fields = name :: toks /\ length xs = n /\
    Forall2 (fun tok x => ParseFloat tok = Some x) (take n toks) xs /\
    m' = {| Matrix := <[i:=xs]> (Matrix m); Names := <[i:=name]> (Names m) |}.
Proof.
  intros Hi Hrow Hlen Hrun. destruct fields as [|name toks]; [discriminate Hrun|].
  destruct (fields_read_or_not n toks)
    as [(xs & Hxs & Hall)|[(Hshort & Hall)|(k & tok & Hk & Htok & Hnone & Hall)]].
  - rewrite (storeRow_ok ParseFloat n i m row Hi Hrow Hlen name toks xs Hxs Hall) in Hrun.
    injection Hrun as <-. exists name, toks, xs. auto.
  - rewrite (storeRow_short ParseFloat n i m row Hi Hrow Hlen (name :: toks)) in Hrun;
      [discriminate | simpl; lia | exact Hall].
  - rewrite (storeRow_rejected ParseFloat n i m row Hi Hrow Hlen name toks k tok
               Hk Htok Hnone Hall) in Hrun.
    discriminate.
Qed.

(** The rows of a block at the end of which [Scan] returns false: the
    input held fewer lines than there are rows to read, each with a name
    and its floats, and then came to its end; these rows are in the
    matrix, and the others are as they were. *)
Lemma scanRows_cut (n cnt : nat) :
  forall i m r0 s',
    square n m -> i + cnt <= n ->
    scanRows ParseFloat cnt i n m r0 = Ok (false, s') ->
    exists ls ps last,
      length ls < cnt /\ r0 = unlines ls +:+ last /\ noNewline last = true /\
      rowsRead ParseFloat n ls ps /\
      s' = {| r := EmptyString;
              mat := Some {| Matrix := take i (Matrix m) ++ map snd ps
                                         ++ drop (i + length ls) (Matrix m);
                             Names := take i (Names m) ++ map fst ps
                                        ++ drop (i + length ls) (Names m) |} |}.
Proof.
  induction cnt as [|c IH]; intros i m r0 s' Hsq Hi Hrun; [discriminate Hrun|].
  cbn [scanRows] in Hrun.
  destruct (ReadString r0) as [[l r1] err] eqn:Hread.
  apply ReadString_inv in Hread. destruct err.
  - destruct Hread as (Hnl & _ & ->). injection Hrun as <-.
    exists [], [], r0. split; [simpl; lia|]. split; [reflexivity|]. split; [exact Hnl|].
    split; [constructor|]. simpl. rewrite Nat.add_0_r, !take_drop. destruct m; reflexivity.
  - destruct Hread as (l0 & Hnl & -> & ->).
    destruct (storeRow ParseFloat (Fields (l0 +:+ String LF EmptyString)) i n m)
      as [m1| |] eqn:Hrow; try discriminate Hrun.
    rewrite mbind_Ok in Hrun.
    pose proof Hsq as (HN & HM & Hrows).
    destruct (lookup_lt_is_Some_2 (Matrix m) i) as [row Hr]; [lia|].
    destruct (storeRow_inv _ n i m m1 row ltac:(lia) Hr (Forall_lookup_1 _ _ _ _ Hrows Hr)
                Hrow) as (name & toks & xs & Hf & Hxs & Hall & ->).
    destruct (IH (S i) _ r1 s' (square_insert_row n i m name xs Hsq Hxs) ltac:(lia) Hrun)
      as (ls & ps & last & Hlen & -> & Hlast & Hps & ->).
    exists (l0 :: ls), ((name, xs) :: ps), last.
    split; [simpl; lia|]. split; [rewrite unlines_cons; reflexivity|].
    split; [exact Hlast|]. split.
    + constructor; [|exact Hps]. split; [exact Hnl|]. exists toks. auto.
    + cbn [Matrix Names length map fst snd]. f_equal. f_equal. f_equal.
      * rewrite take_S_insert by lia. rewrite drop_insert_lt by lia.
        replace (S i + length ls) with (i + S (length ls)) by lia.
        rewrite <- app_assoc. reflexivity.
      * rewrite take_S_insert by lia. rewrite drop_insert_lt by lia.
        replace (S i + length ls) with (i + S (length ls)) by lia.
        rewrite <- app_assoc. reflexivity.
Qed.
End RowsCut.

(** C1, as amended.  A [Scan] that returns false because the end of the
    stream came before a header line leaves the matrix held as it was.  A
    [Scan] that returns false after it has read a header, for n taxa, has
    replaced the matrix held: fewer than n lines followed the header before
    the stream came to its end, each with a name and n floats that were
    read, and the matrix held is the n by n matrix allocated for the new
    block with these names and floats in its first rows, in the order of
    the lines; the other rows are zero and their names empty, the last row
    among them. *)
Theorem Scan_false_held (ParseFloat : string -> option float) (s s' : Scanner) :
  Scan ParseFloat s = Ok (false, s') ->
  let '(l, err, rest) := seekHeader (r s) in
  if err then DistanceMatrix s' = DistanceMatrix s
  else exists k ls ps last m,
    Atoi (TrimRight l) = Some (Z.of_nat (S k)) /\
    length ls <= k /\ rest = unlines ls +:+ last /\ noNewline last = true /\
    rowsRead ParseFloat (S k) ls ps /\
    DistanceMatrix s' = Some m /\
    m = {| Matrix := map snd ps ++ replicate (S k - length ls) (replicate (S k) 0%float);
           Names := map fst ps ++ replicate (S k - length ls) EmptyString |} /\
    square (S k) m /\
    Names m !! k = Some EmptyString /\
    Matrix m !! k = Some (replicate (S k) 0%float).
Proof.
  unfold Scan. destruct (seekHeader (r s)) as [[l err] r1]. destruct err.
  - intros [= <-]. reflexivity.
  - destruct (Atoi (TrimRight l)) as [z|]; [|discriminate].
    unfold NewDistMat.
    destruct (decide (z < 0)%Z); cbv beta iota delta [mbind result_bind bind];
      [discriminate|].
    intros Hrun.
    destruct (Z.to_nat z) as [|k] eqn:Hz; [discriminate Hrun|].
    apply scanRows_cut in Hrun; [|apply zeros_square | lia].
    destruct Hrun as (ls & ps & last & Hlen & -> & Hlast & Hps & ->).
    pose proof (rowsRead_length _ _ _ _ Hps) as Hpslen.
    pose proof (rowsRead_square _ _ _ _ Hps ltac:(lia)) as Hsq.
    unfold zeros in Hsq |- *. cbn [Matrix Names] in Hsq |- *.
    rewrite !take_0, !app_nil_l, !drop_replicate in Hsq |- *.
    cbn [Nat.add] in Hsq |- *.
    eexists k, ls, ps, last, _.
    split; [f_equal; lia|]. split; [lia|]. split; [reflexivity|]. split; [exact Hlast|].
    split; [exact Hps|]. split; [reflexivity|]. split; [reflexivity|].
    split; [exact Hsq|]. cbn [Matrix Names].
    split; rewrite lookup_app_r by (rewrite length_map; lia);
      apply lookup_replicate_2; rewrite length_map; lia.
Qed.

(** The stream holds the header for two taxa and one row: the matrix held
    after the [Scan] that returns false has the name and the floats of that
    row, and its second row is zero. *)
Lemma Scan_false_held_witness :
  exists ls ps last,
    unlines ["a 1 1"]%string = unlines ls +:+ last /\ length ls <= 1 /\
    rowsRead wholeNumber 2 ls ps /\
    {| Matrix := [[1; 1]; [0; 0]]%float; Names := ["a"; ""]%string |}
    = {| Matrix := map snd ps ++ replicate (2 - length ls) (replicate 2 0%float);
         Names := map fst ps ++ replicate (2 - length ls) EmptyString |}.
Proof.
  destruct (Scan_false_held wholeNumber
              {| r := unlines ["2"; "a 1 1"]%string; mat := Some (zeros 0) |}
              {| r := EmptyString;
                 mat := Some {| Matrix := [[1; 1]; [0; 0]]%float;
                                Names := ["a"; ""]%string |} |} eq_refl)
    as (k & ls & ps & last & m & Hn & Hlen & Hrest & _ & Hps & Hm & Hmeq & _).
  injection Hn as Hk. assert (k = 1) as -> by lia.
  injection Hm as <-.
  exists ls, ps, last. split; [exact Hrest|]. split; [exact Hlen|]. split; [exact Hps|].
  exact Hmeq.
Defined.

(** ** The states of the scanner *)

Lemma skipToHeader_eof (fuel : nat) (l l' : string) (err : bool) (r0 rest : string) :
  (err = true -> r0 = EmptyString) ->
  skipToHeader fuel l err r0 = (l', true, rest) -> rest = EmptyString.
Proof.
  revert l err r0. induction fuel as [|f IH]; intros l err r0 H0 Hrun; simpl in Hrun.
  - injection Hrun as _ -> ->. apply H0. reflexivity.
  - destruct err; simpl in Hrun.
    + injection Hrun as _ ->. apply H0. reflexivity.
    + destruct (hasDigit l); simpl in Hrun; [discriminate|].
      destruct (ReadString r0) as [[l1 r1] e1] eqn:E.
      apply (IH l1 e1 r1); [|exact Hrun]. intros He.
      pose proof (ReadString_rest _ _ _ _ E) as Hr. rewrite He in Hr. exact Hr.
Qed.

Lemma seekHeader_eof (r0 l rest : string) :
  seekHeader r0 = (l, true, rest) -> rest = EmptyString.
Proof.
  unfold seekHeader. destruct (ReadString r0) as [[l1 r1] e1] eqn:E.
  apply skipToHeader_eof. intros He.
  pose proof (ReadString_rest _ _ _ _ E) as Hr. rewrite He in Hr. exact Hr.
Qed.

(** A [Scan] that has returned false has used up the stream: every later
    [Scan] returns false and changes nothing, in particular not the matrix
    held. *)
Theorem Scan_exhausted (ParseFloat : string -> option float) (s s' : Scanner) :
  Scan ParseFloat s = Ok (false, s') ->
  r s' = EmptyString /\ Scan ParseFloat s' = Ok (false, s').
Proof.
  intros Hrun.
  assert (Hr : r s' = EmptyString).
  { unfold Scan in Hrun. destruct (seekHeader (r s)) as [[l err] r1] eqn:Hseek.
    destruct err.
    - injection Hrun as <-. apply seekHeader_eof in Hseek. exact Hseek.
    - destruct (Atoi (TrimRight l)) as [z|]; [|discriminate].
      destruct (NewDistMat z) as [m0| |]; try discriminate.
      rewrite mbind_Ok in Hrun. apply scanRows_frame in Hrun.
      destruct Hrun as (m & k & _ & _ & _ & _ & _ & Hr). exact Hr. }
  split; [exact Hr|]. destruct s' as [r' held]. cbn [r] in Hr. subst r'. reflexivity.
Qed.

Lemma Scan_exhausted_witness :
  Scan wholeNumber {| r := EmptyString; mat := Some (zeros 1) |}
  = Ok (false, {| r := EmptyString; mat := Some (zeros 1) |}).
Proof.
  exact (proj2 (Scan_exhausted wholeNumber
                  {| r := unlines ["1"]%string; mat := Some (zeros 0) |}
                  {| r := EmptyString; mat := Some (zeros 1) |} eq_refl)).
Defined.

(** A [Scan] that returns true holds a matrix that is n by n with n names,
    n being the count that the header announces. *)
Theorem Scan_true_square (ParseFloat : string -> option float) (s s' : Scanner) :
  Scan ParseFloat s = Ok (true, s') ->
  exists n m,
    Atoi (TrimRight (fst (fst (seekHeader (r s))))) = Some (Z.of_nat n) /\
    DistanceMatrix s' = Some m /\ square n m.
Proof.
  unfold Scan. destruct (seekHeader (r s)) as [[l err] r1]. cbn [fst].
  destruct err; [discriminate|].
  destruct (Atoi (TrimRight l)) as [z|]; [|discriminate].
  unfold NewDistMat. destruct (decide (z < 0)%Z); [discriminate|].
  rewrite mbind_Ok. intros Hrun. apply scanRows_frame in Hrun.
  destruct Hrun as (m & k & Hmat & HN & HM & _).
  exists (Z.to_nat z), m. split; [f_equal; lia|]. split; [exact Hmat|].
  apply (map_length_eq_square _ (zeros (Z.to_nat z))); auto using zeros_square.
Qed.

Lemma Scan_true_square_witness :
  exists n m,
    Atoi "2" = Some (Z.of_nat n) /\
    Some {| Matrix := [[0; 3]; [4; 0]]%float; Names := ["a"; "b"]%string |} = Some m /\
    square n m.
Proof.
  exact (Scan_true_square wholeNumber
           (NewScanner (unlines ["2"; "a 0 3"; "b 4 0"]%string))
           {| r := EmptyString;
              mat := Some {| Matrix := [[0; 3]; [4; 0]]%float;
                             Names := ["a"; "b"]%string |} |} eq_refl).
Defined.
